(** * kivik: result sets, the iterator core and the bulk-scan engine

    A shallow embedding of the result-set code of the kivik client
    library ([resultset.go], the test feed of [iterator_test.go]) and of
    the iterator core it is built on, followed by the properties of the
    bulk-scan engine [scanAll], of the [rows] methods and of the errored
    result set [errRS].

    Two revisions of [resultset.go] are among the sources.  The later
    one, which follows the iterator test in [iterator_test.go], has the
    state machine, [NextResultSet] and [Metadata]; it is embedded first.
    The earlier one, the file [resultset.go] itself, has [Finish] and rows
    whose payloads are bytes or readers; its scan methods and its [errRS]
    are in the module [legacy].  [scanAll] is the same text in both.

    Go values that live behind a pointer and are mutated in place (the
    result set, the feed, the current row, the destination of a scan) are
    threaded explicitly: every method takes the object's state and returns
    the new one next to its Go results. *)

From Stdlib Require Import ZArith Lia Ascii.
From stdpp Require Import base list strings pretty.

Set Default Proof Using "Type".

(** ** Go errors *)

(** The [error] values the code builds or compares against.  [io_EOF] and
    [driver_EOQ] are the two sentinels the feeds return; [errors_New] is
    [errors.New(text)]; [kivik_Error] is [&Error{Status, Message, Err}]. *)
#[warnings="-register-all"]
Inductive error : Type :=
| io_EOF
| driver_EOQ
| errors_New (text : string)
| kivik_Error (Status : Z) (Message : string) (Err : option error).

Definition http_StatusBadRequest : Z := 400.

(** A Go [error] interface value: [None] is [nil]. *)
Abbreviation goerr := (option error).

(** ** Outcomes of a call

    A call returns, panics, or (for the one loop whose length depends on
    the result set) runs out of the fuel it was given. *)
Inductive run (A : Type) : Type :=
| Returns (a : A)
| Panics (reason : string)
| OutOfFuel.
Arguments Returns {A} a.
Arguments Panics {A} reason.
Arguments OutOfFuel {A}.

#[global] Instance run_ret : MRet run := fun A a => Returns a.
#[global] Instance run_bind : MBind run := fun A B f m =>
  match m with
  | Returns a => f a
  | Panics s => Panics s
  | OutOfFuel => OutOfFuel
  end.

Definition nil_dereference : string :=
  "invalid memory address or nil pointer dereference".

(** ** The driver side: rows and the feed contract *)
Module driver.

(** [driver.Row], with the fields the result set reads.  [Value] and
    [Doc] are [io.Reader]s: [None] is a nil reader, [Some s] a reader
    with [s] still unread.  [Key] is the raw JSON of the key. *)
Record Row : Type := {
  ID : string;
  Key : string;
  Value : option string;
  Doc : option string;
  Error : goerr
}.

(** [&driver.Row{}] *)
Definition zeroRow : Row :=
  {| ID := ""; Key := ""; Value := None; Doc := None; Error := None |}.

(** [driver.Rows], an interface: [D] is the state of the implementing
    object.  [Next] receives the slot it is to fill (the pointer it is
    handed) and returns what it left there.  [Warning] and [Bookmark]
    belong to the optional interfaces [driver.RowsWarner] and
    [driver.Bookmarker]: [None] when [D] does not implement them. *)
Class Rows (D : Type) : Type := {
  Next : D -> Row -> goerr * Row * D;
  Close : D -> goerr * D;
  UpdateSeq : D -> string;
  Offset : D -> Z;
  TotalRows : D -> Z;
  Warning : option (D -> string);
  Bookmark : option (D -> string)
}.

End driver.

(** ** The iterator core *)

(** The [iterator] interface a feed implements ([var _ iterator =
    &rowsIterator{}], [var _ iterator = &TestFeed{}]): [Next(interface{})
    error] and [Close() error].  [Slot] is the type behind the pointer the
    feed accepts; the type assertion in each [Next] fixes it. *)
Class iterator (F Slot : Type) : Type := {
  feed_Next : F -> Slot -> goerr * Slot * F;
  feed_Close : F -> goerr * F
}.

(** Modelled from the spec: the states of the iterator core, whose
    declaration ([iterator.go]) is not among the sources.  [stateRowReady],
    [stateEOQ], [stateResultSetReady] and [stateClosed] are named in
    [resultset.go]; [stateInit] is the spec's [Init]. *)
Inductive State : Type :=
| stateInit
| stateRowReady
| stateEOQ
| stateResultSetReady
| stateClosed.

#[global] Instance State_eq_dec : EqDecision State.
Proof. solve_decision. Defined.

(** Modelled from the spec: the iterator core's record.  [feed], [state],
    [curVal] and [lasterr] are the fields [resultset.go] reads and writes;
    [onCloseCalls] counts the invocations of the close callback.  The lock
    [mu] and the cancellation scope are left out: the model is the
    sequential behaviour under a scope that never signals. *)
Record iter (F Slot : Type) : Type := mkIter {
  feed : F;
  state : State;
  curVal : Slot;
  lasterr : goerr;
  onCloseCalls : nat
}.
Arguments mkIter {F Slot}.
Arguments feed {F Slot}.
Arguments state {F Slot}.
Arguments curVal {F Slot}.
Arguments lasterr {F Slot}.
Arguments onCloseCalls {F Slot}.

Section IteratorCore.
Context {F Slot : Type} `{!iterator F Slot}.

(** Modelled from the spec: [newIterator], which wraps a feed with a
    zero-valued slot: state [Init], no error recorded. *)
Definition newIterator (f : F) (zeroValue : Slot) : iter F Slot :=
  mkIter f stateInit zeroValue None 0.

(** Modelled from the spec: what every transition into [Closed] does:
    the feed is closed and the close callback invoked. *)
Definition shutdown (i : iter F Slot) (slot : Slot) (f : F) (e : goerr)
  : goerr * iter F Slot :=
  let '(closeErr, f') := feed_Close f in
  (closeErr, mkIter f' stateClosed slot e (S (onCloseCalls i))).

(** Modelled from the spec: [advance()], the core's [Next].  A no-op
    returning false when the state is [Closed] or an error is recorded;
    otherwise one fetch from the feed: success gives [RowReady] and
    true; end of data closes; end of query gives [EndOfQuery]; any other
    error is recorded and closes.  The slot is shared with the feed, so
    [curVal] is whatever the feed left in it.  The spec names [Init],
    [RowReady] and [ResultSetReady] as the states [advance] is valid
    from and is silent on [EndOfQuery]; the model fetches there too. *)
Definition iter_Next (i : iter F Slot) : bool * iter F Slot :=
  match lasterr i with
  | Some _ => (false, i)
  | None =>
    if decide (state i = stateClosed) then (false, i)
    else
      let '(e, slot, f) := feed_Next (feed i) (curVal i) in
      match e with
      | None => (true, mkIter f stateRowReady slot None (onCloseCalls i))
      | Some io_EOF => (false, snd (shutdown i slot f None))
      | Some driver_EOQ => (false, mkIter f stateEOQ slot None (onCloseCalls i))
      | Some other => (false, snd (shutdown i slot f (Some other)))
      end
  end.

(** Modelled from the spec: [close()].  Idempotent; from any other state
    it goes to [Closed], closes the feed, keeps the feed's error as
    [lasterr] if none is recorded yet, and invokes the callback.  It
    returns the feed's close error, and nil when already closed. *)
Definition iter_Close (i : iter F Slot) : goerr * iter F Slot :=
  if decide (state i = stateClosed) then (None, i)
  else
    let '(closeErr, f') := feed_Close (feed i) in
    (closeErr,
     mkIter f' stateClosed (curVal i)
            (match lasterr i with Some e => Some e | None => closeErr end)
            (S (onCloseCalls i))).

(** Modelled from the spec: the core's [Err()] is the sticky error. *)
Definition iter_Err (i : iter F Slot) : goerr := lasterr i.

(** Modelled from the spec: [currentValueAccess()], the core's
    [makeReady].  From [Init]: one implicit advance, one implicit close,
    then the fetched value; from any other state the current value. *)
Definition makeReady (i : iter F Slot) : iter F Slot :=
  if decide (state i = stateInit) then
    snd (iter_Close (snd (iter_Next i)))
  else i.

End IteratorCore.

(** ** Result sets ([resultset.go], later revision) *)

(** [ResultMetadata] *)
Record ResultMetadata : Type := {
  Offset : Z;
  TotalRows : Z;
  UpdateSeq : string;
  Warning : string;
  Bookmark : string
}.

(** The [ResultSet] interface.  [S] is the state of the implementing
    object and [T] the type behind the [dest] pointer of the scan methods,
    which receive the destination's value and return what the call left in
    it.  [Metadata] returns a [*ResultMetadata]: [None] is nil.
    [Attachments] is not needed by any property below and is left out. *)
Class ResultSet (S T : Type) : Type := {
  Next : S -> run (bool * S);
  NextResultSet : S -> run (bool * S);
  Err : S -> run (goerr * S);
  Close : S -> run (goerr * S);
  Metadata : S -> run (option ResultMetadata * goerr * S);
  ScanValue : S -> T -> run (goerr * T * S);
  ScanDoc : S -> T -> run (goerr * T * S);
  ScanKey : S -> T -> run (goerr * T * S);
  ID : S -> run (string * S);
  Rev : S -> run (string * S);
  Key : S -> run (string * S)
}.

(** [baseRS], embedded in [rows] and [errRS]: [Rev] is its only method a
    result set below does not override. *)
Module baseRS.
Definition Rev : string := "".
End baseRS.

(** [rowsIterator], the feed of a [rows]: the driver's rows and the
    metadata captured when they end. *)
Module rowsIterator.
Section WithDriver.
Context {D : Type} `{!driver.Rows D}.

Record t : Type := mk {
  Rows : D;
  ResultMetadata : option ResultMetadata
}.

Definition Next (r : t) (i : driver.Row) : goerr * driver.Row * t :=
  let '(err, i, d) := driver.Next (Rows r) i in
  match err with
  | Some io_EOF | Some driver_EOQ =>
    let warning :=
      match driver.Warning with Some w => w d | None => "" end in
    let bookmark :=
      match driver.Bookmark with Some b => b d | None => "" end in
    (err, i,
     mk d (Some {| Offset := driver.Offset d;
                   TotalRows := driver.TotalRows d;
                   UpdateSeq := driver.UpdateSeq d;
                   Warning := warning;
                   Bookmark := bookmark |}))
  | _ => (err, i, mk d (ResultMetadata r))
  end.

(** [Close] is promoted from the embedded [driver.Rows]. *)
Definition Close (r : t) : goerr * t :=
  let '(err, d) := driver.Close (Rows r) in
  (err, mk d (ResultMetadata r)).

End WithDriver.
Arguments t D : clear implicits.
End rowsIterator.

#[global] Instance rowsIterator_iterator {D : Type} `{!driver.Rows D}
  : iterator (rowsIterator.t D) driver.Row :=
  {| feed_Next := rowsIterator.Next; feed_Close := rowsIterator.Close |}.

(** [rows].  The embedded [*iter] may be nil.  The field [rowsi] aliases
    the driver object held by the feed, and no method below reads it, so
    the feed's copy is the only one kept. *)
Module rows.
Section WithDriver.
Context {D : Type} `{!driver.Rows D} {T : Type}.

(** [json.NewDecoder(reader).Decode(dest)]: from the unread input and
    the destination's value, the error, the destination afterwards and
    the input left unread. *)
Variable json_Decode : string -> T -> goerr * T * string.
(** [json.Unmarshal(data, dest)] *)
Variable json_Unmarshal : string -> T -> goerr * T.

Record t : Type := mk {
  iter_ : option (iter (rowsIterator.t D) driver.Row);
  err : goerr
}.

Definition newRows (rowsi : D) : t :=
  mk (Some (newIterator (rowsIterator.mk rowsi None) driver.zeroRow)) None.

(** Reaching a field or method of the embedded [*iter]. *)
Definition deref (r : t) : run (iter (rowsIterator.t D) driver.Row) :=
  match iter_ r with
  | Some i => Returns i
  | None => Panics nil_dereference
  end.

Definition Next (r : t) : run (bool * t) :=
  i ← deref r;
  let '(ok, i) := iter_Next i in
  Returns (ok, mk (Some i) (err r)).

Definition NextResultSet (r : t) : run (bool * t) :=
  i ← deref r;
  match lasterr i with
  | Some _ => Returns (false, r)
  | None =>
    if decide (state i = stateClosed) then Returns (false, r)
    else if decide (state i = stateRowReady) then
      Returns (false,
               mk (Some (mkIter (feed i) (state i) (curVal i)
                           (Some (errors_New "must call NextResultSet before Next"))
                           (onCloseCalls i)))
                  (err r))
    else
      Returns (true,
               mk (Some (mkIter (feed i) stateResultSetReady (curVal i)
                           (lasterr i) (onCloseCalls i)))
                  (err r))
  end.

Definition Err (r : t) : run (goerr * t) :=
  match err r with
  | Some e => Returns (Some e, r)
  | None => i ← deref r; Returns (iter_Err i, r)
  end.

Definition Close (r : t) : run (goerr * t) :=
  i ← deref r;
  let '(e, i) := iter_Close i in
  Returns (e, mk (Some i) (err r)).

Definition notReady : error :=
  kivik_Error http_StatusBadRequest ""
    (Some (errors_New "Metadata must not be called until result set iteration is complete")).

Definition Metadata (r : t) : run (option ResultMetadata * goerr * t) :=
  match iter_ r with
  | None => Returns (None, Some notReady, r)
  | Some i =>
    if negb (bool_decide (state i = stateEOQ))
       && negb (bool_decide (state i = stateClosed))
    then Returns (None, Some notReady, r)
    else Returns (rowsIterator.ResultMetadata (feed i), None, r)
  end.

(** The current row ([r.curVal] asserted to a [driver.Row] pointer)
    after [makeReady], with the iterator as [makeReady] left it. *)
Definition ready (r : t) : run (driver.Row * iter (rowsIterator.t D) driver.Row) :=
  i ← deref r;
  let i := makeReady i in
  Returns (curVal i, i).

(** Storing back a row whose reader has been read from. *)
Definition withRow (r : t) (i : iter (rowsIterator.t D) driver.Row)
    (row : driver.Row) : t :=
  mk (Some (mkIter (feed i) (state i) row (lasterr i) (onCloseCalls i)))
     (err r).

Definition ScanValue (r : t) (dest : T) : run (goerr * T * t) :=
  match err r with
  | Some e => Returns (Some e, dest, r)
  | None =>
    '(row, i) ← ready r;
    match driver.Error row with
    | Some e => Returns (Some e, dest, mk (Some i) (err r))
    | None =>
      match driver.Value row with
      | Some reader =>
        let '(e, dest, rest) := json_Decode reader dest in
        Returns (e, dest,
                 withRow r i
                   {| driver.ID := driver.ID row;
                      driver.Key := driver.Key row;
                      driver.Value := Some rest;
                      driver.Doc := driver.Doc row;
                      driver.Error := driver.Error row |})
      | None => Returns (None, dest, mk (Some i) (err r))
      end
    end
  end.

Definition docIsNil : error :=
  kivik_Error http_StatusBadRequest
    "kivik: doc is nil; does the query include docs?" None.

Definition ScanDoc (r : t) (dest : T) : run (goerr * T * t) :=
  match err r with
  | Some e => Returns (Some e, dest, r)
  | None =>
    '(row, i) ← ready r;
    match driver.Error row with
    | Some e => Returns (Some e, dest, mk (Some i) (err r))
    | None =>
      match driver.Doc row with
      | Some reader =>
        let '(e, dest, rest) := json_Decode reader dest in
        Returns (e, dest,
                 withRow r i
                   {| driver.ID := driver.ID row;
                      driver.Key := driver.Key row;
                      driver.Value := driver.Value row;
                      driver.Doc := Some rest;
                      driver.Error := driver.Error row |})
      | None => Returns (Some docIsNil, dest, mk (Some i) (err r))
      end
    end
  end.

Definition ScanKey (r : t) (dest : T) : run (goerr * T * t) :=
  match err r with
  | Some e => Returns (Some e, dest, r)
  | None =>
    '(row, i) ← ready r;
    match driver.Error row with
    | Some e => Returns (Some e, dest, mk (Some i) (err r))
    | None =>
      let '(e, dest) := json_Unmarshal (driver.Key row) dest in
      Returns (e, dest, mk (Some i) (err r))
    end
  end.

Definition ID (r : t) : run (string * t) :=
  '(row, i) ← ready r;
  Returns (driver.ID row, mk (Some i) (err r)).

Definition Key (r : t) : run (string * t) :=
  '(row, i) ← ready r;
  Returns (driver.Key row, mk (Some i) (err r)).

Definition Rev (r : t) : run (string * t) := Returns (baseRS.Rev, r).

End WithDriver.
Arguments t D : clear implicits.
End rows.

Definition rows_ResultSet {D : Type} `{!driver.Rows D} {T : Type}
    (json_Decode : string -> T -> goerr * T * string)
    (json_Unmarshal : string -> T -> goerr * T)
  : ResultSet (rows.t D) T :=
  {| Next := rows.Next;
     NextResultSet := rows.NextResultSet;
     Err := rows.Err;
     Close := rows.Close;
     Metadata := rows.Metadata;
     ScanValue := rows.ScanValue json_Decode;
     ScanDoc := rows.ScanDoc json_Decode;
     ScanKey := rows.ScanKey json_Unmarshal;
     ID := rows.ID;
     Rev := rows.Rev;
     Key := rows.Key |}.

(** [errRS], a result set that has errored. *)
Module errRS.
Record t : Type := mk { err : goerr }.

Section Methods.
Context {T : Type}.
Definition Err (e : t) : run (goerr * t) := Returns (err e, e).
Definition Close (e : t) : run (goerr * t) := Returns (err e, e).
Definition Metadata (e : t) : run (option ResultMetadata * goerr * t) :=
  Returns (None, err e, e).
Definition ID (e : t) : run (string * t) := Returns ("", e).
Definition Key (e : t) : run (string * t) := Returns ("", e).
Definition Next (e : t) : run (bool * t) := Returns (false, e).
Definition ScanAllDocs (e : t) (dest : T) : run (goerr * T * t) :=
  Returns (err e, dest, e).
Definition ScanDoc (e : t) (dest : T) : run (goerr * T * t) :=
  Returns (err e, dest, e).
Definition ScanKey (e : t) (dest : T) : run (goerr * T * t) :=
  Returns (err e, dest, e).
Definition ScanValue (e : t) (dest : T) : run (goerr * T * t) :=
  Returns (err e, dest, e).
Definition NextResultSet (e : t) : run (bool * t) := Returns (false, e).
Definition Rev (e : t) : run (string * t) := Returns (baseRS.Rev, e).
End Methods.
End errRS.

#[global] Instance errRS_ResultSet {T : Type} : ResultSet errRS.t T :=
  {| Next := errRS.Next;
     NextResultSet := errRS.NextResultSet;
     Err := errRS.Err;
     Close := errRS.Close;
     Metadata := errRS.Metadata;
     ScanValue := errRS.ScanValue;
     ScanDoc := errRS.ScanDoc;
     ScanKey := errRS.ScanKey;
     ID := errRS.ID;
     Rev := errRS.Rev;
     Key := errRS.Key |}.

(** ** The earlier revision of [rows] and [errRS]

    The file [resultset.go] itself: rows carry their value and document
    either as bytes or as a reader, and the errored result set has
    [Finish] where the later revision has [Metadata].  Of [rows] the three
    scan methods and [Err] are embedded; they run on the same iterator
    core, here over any feed of that revision's rows. *)
Module legacy.

(** [driver.Row] of that revision.  [Doc] is a [json.RawMessage] that
    may be nil; [ValueReader] and [DocReader] are [io.Reader]s. *)
Record Row : Type := {
  ID : string;
  Key : string;
  Value : string;
  ValueReader : option string;
  Doc : option string;
  DocReader : option string;
  Error : goerr
}.

Definition zeroRow : Row :=
  {| ID := ""; Key := ""; Value := ""; ValueReader := None;
     Doc := None; DocReader := None; Error := None |}.

Module rows.
Section WithFeed.
Context {F : Type} `{!iterator F Row} {T : Type}.
Variable json_Decode : string -> T -> goerr * T * string.
Variable json_Unmarshal : string -> T -> goerr * T.

Record t : Type := mk {
  iter_ : option (iter F Row);
  err : goerr
}.

Definition deref (r : t) : run (iter F Row) :=
  match iter_ r with
  | Some i => Returns i
  | None => Panics nil_dereference
  end.

Definition Err (r : t) : run (goerr * t) :=
  match err r with
  | Some e => Returns (Some e, r)
  | None => i ← deref r; Returns (iter_Err i, r)
  end.

Definition ready (r : t) : run (Row * iter F Row) :=
  i ← deref r;
  let i := makeReady i in
  Returns (curVal i, i).

Definition withRow (r : t) (i : iter F Row) (row : Row) : t :=
  mk (Some (mkIter (feed i) (state i) row (lasterr i) (onCloseCalls i)))
     (err r).

Definition ScanValue (r : t) (dest : T) : run (goerr * T * t) :=
  match err r with
  | Some e => Returns (Some e, dest, r)
  | None =>
    '(row, i) ← ready r;
    match Error row with
    | Some e => Returns (Some e, dest, mk (Some i) (err r))
    | None =>
      match ValueReader row with
      | Some reader =>
        let '(e, dest, rest) := json_Decode reader dest in
        Returns (e, dest,
                 withRow r i
                   {| ID := ID row; Key := Key row; Value := Value row;
                      ValueReader := Some rest; Doc := Doc row;
                      DocReader := DocReader row; Error := Error row |})
      | None =>
        let '(e, dest) := json_Unmarshal (Value row) dest in
        Returns (e, dest, mk (Some i) (err r))
      end
    end
  end.

Definition docIsNil : error :=
  kivik_Error http_StatusBadRequest
    "kivik: doc is nil; does the query include docs?" None.

Definition ScanDoc (r : t) (dest : T) : run (goerr * T * t) :=
  match err r with
  | Some e => Returns (Some e, dest, r)
  | None =>
    '(row, i) ← ready r;
    match Error row with
    | Some e => Returns (Some e, dest, mk (Some i) (err r))
    | None =>
      match DocReader row with
      | Some reader =>
        let '(e, dest, rest) := json_Decode reader dest in
        Returns (e, dest,
                 withRow r i
                   {| ID := ID row; Key := Key row; Value := Value row;
                      ValueReader := ValueReader row; Doc := Doc row;
                      DocReader := Some rest; Error := Error row |})
      | None =>
        match Doc row with
        | Some doc =>
          let '(e, dest) := json_Unmarshal doc dest in
          Returns (e, dest, mk (Some i) (err r))
        | None => Returns (Some docIsNil, dest, mk (Some i) (err r))
        end
      end
    end
  end.

Definition ScanKey (r : t) (dest : T) : run (goerr * T * t) :=
  match err r with
  | Some e => Returns (Some e, dest, r)
  | None =>
    '(row, i) ← ready r;
    match Error row with
    | Some e => Returns (Some e, dest, mk (Some i) (err r))
    | None =>
      let '(e, dest) := json_Unmarshal (Key row) dest in
      Returns (e, dest, mk (Some i) (err r))
    end
  end.

End WithFeed.
Arguments t F : clear implicits.
End rows.

Module errRS.
Record t : Type := mk { err : goerr }.

Section Methods.
Context {T : Type}.
Definition Err (e : t) : run (goerr * t) := Returns (err e, e).
Definition Close (e : t) : run (goerr * t) := Returns (err e, e).
Definition Finish (e : t) : run (ResultMetadata * goerr * t) :=
  Returns ({| Offset := 0; TotalRows := 0; UpdateSeq := "";
              Warning := ""; Bookmark := "" |}, err e, e).
Definition ID (e : t) : run (string * t) := Returns ("", e).
Definition Key (e : t) : run (string * t) := Returns ("", e).
Definition Next (e : t) : run (bool * t) := Returns (false, e).
Definition ScanAllDocs (e : t) (dest : T) : run (goerr * T * t) :=
  Returns (err e, dest, e).
Definition ScanDoc (e : t) (dest : T) : run (goerr * T * t) :=
  Returns (err e, dest, e).
Definition ScanKey (e : t) (dest : T) : run (goerr * T * t) :=
  Returns (err e, dest, e).
Definition ScanValue (e : t) (dest : T) : run (goerr * T * t) :=
  Returns (err e, dest, e).
End Methods.
End errRS.

End legacy.

(** ** The bulk-scan engine *)

(** What [dest interface{}] can be, as [scanAll] tells it apart by
    reflection: not a pointer (a nil interface included), a nil pointer, a
    pointer to an array (whose length is that of [a]), a pointer to a
    slice, a pointer to anything else. *)
Inductive Dest (T : Type) : Type :=
| NotPointer
| NilPointer
| ArrayPtr (a : list T)
| SlicePtr (s : list T)
| OtherPtr.
Arguments NotPointer {T}.
Arguments NilPointer {T}.
Arguments ArrayPtr {T} a.
Arguments SlicePtr {T} s.
Arguments OtherPtr {T}.

Section BulkScan.
Context {R T : Type} `{!ResultSet R T}.

(** The zero value of the element type, which [reflect.New(base)]
    points at. *)
Variable zero : T.

(** [scan func(interface{}) error], a method value bound to the result
    set: it acts on the result set's state. *)
Variable scan : R -> T -> run (goerr * T * R).

(** The [for i := 0; r.Next(); i++] loop of [scanAll].  [err] is the
    named result, assigned by each scan; the loop hands back the result
    set, the destination and [err] as they stand when a [return nil] is
    reached.  The loop ends when the result set does, hence the fuel.
    The index is a [nat]: it counts the rows consumed. *)
Fixpoint scanAll_loop (fuel : nat) (limit i : nat) (r : R)
    (direct : list T) (err : goerr) : run (R * list T * goerr) :=
  match fuel with
  | O => OutOfFuel
  | S fuel =>
    '(more, r) ← Next r;
    if negb more then Returns (r, direct, err)
    else if (0 <? limit) && (limit <=? i) then Returns (r, direct, err)
    else
      '(e, v, r) ← scan r zero;
      let direct :=
        if 0 <? limit then <[i := v]> direct else direct ++ [v] in
      scanAll_loop fuel limit (S i) r direct e
  end.

(** The body of [scanAll], up to its [return] statements: the error
    being returned, the destination and the result set. *)
Definition scanAll_body (fuel : nat) (r : R) (dest : Dest T)
  : run (goerr * Dest T * R) :=
  '(e, r) ← Err r;
  match e with
  | Some e => Returns (Some e, dest, r)
  | None =>
    match dest with
    | NotPointer =>
      Returns (Some (errors_New "must pass a pointer to ScanAllDocs"), dest, r)
    | NilPointer =>
      Returns (Some (errors_New "nil pointer passed to ScanAllDocs"), dest, r)
    | ArrayPtr a =>
      let limit := length a in
      if limit =? 0 then
        Returns (Some (errors_New "0-length array passed to ScanAllDocs"), dest, r)
      else
        '(r, direct, _) ← scanAll_loop fuel limit 0 r a None;
        Returns (None, ArrayPtr direct, r)
    | SlicePtr s =>
      '(r, direct, _) ← scanAll_loop fuel 0 0 r s None;
      Returns (None, SlicePtr direct, r)
    | OtherPtr =>
      Returns (Some (errors_New "dest must be a pointer to a slice or array"), dest, r)
    end
  end.

(** [scanAll]: the body, then the deferred function, which closes the
    result set and keeps the close error if the body returned none.
    When the body panics the deferred function still runs, and the
    panic goes on: the outcome is the panic. *)
Definition scanAll (fuel : nat) (r : R) (dest : Dest T)
  : run (goerr * Dest T * R) :=
  '(err, dest, r) ← scanAll_body fuel r dest;
  '(closeErr, r) ← Close r;
  Returns (match err with Some e => Some e | None => closeErr end, dest, r).

End BulkScan.

Definition ScanAllDocs {R T : Type} `{!ResultSet R T} (zero : T)
    (fuel : nat) (r : R) (dest : Dest T) : run (goerr * Dest T * R) :=
  scanAll zero ScanDoc fuel r dest.

Definition ScanAllValues {R T : Type} `{!ResultSet R T} (zero : T)
    (fuel : nat) (r : R) (dest : Dest T) : run (goerr * Dest T * R) :=
  scanAll zero ScanValue fuel r dest.

(** ** The test feed ([iterator_test.go]) *)
Module TestFeed.

Record t : Type := mk { max : Z; i : Z; closeErr : goerr }.

(** [int64] arithmetic wraps around. *)
Definition int64 (z : Z) : Z := ((z + 2 ^ 63) mod 2 ^ 64 - 2 ^ 63)%Z.

Definition Close (f : t) : goerr * t := (closeErr f, f).

(** The slot is an [int64]; a slot of any other type panics, which the
    type of [Next] rules out. *)
Definition Next (f : t) (ifce : Z) : goerr * Z * t :=
  let ifce := i f in
  let f := mk (max f) (int64 (i f + 1)) (closeErr f) in
  if (max f <? i f)%Z then (Some io_EOF, ifce, f)
  else (None, ifce, f).

End TestFeed.

#[global] Instance TestFeed_iterator : iterator TestFeed.t Z :=
  {| feed_Next := TestFeed.Next; feed_Close := TestFeed.Close |}.

(** ** Recording the calls a result set receives

    Any result set can be wrapped so that it logs the methods called on
    it; the wrapper is itself a [ResultSet], so [scanAll] runs on it
    unchanged. *)
Inductive Call : Type :=
| CallNext
| CallErr
| CallClose
| CallScan
| CallOther.

#[global] Instance Call_eq_dec : EqDecision Call.
Proof. solve_decision. Defined.

Section Logged.
Context {R T : Type} `{!ResultSet R T}.

Definition logging {A : Type} (c : Call) (m : R -> run (A * R))
    (s : R * list Call) : run (A * (R * list Call)) :=
  '(a, r) ← m s.1;
  Returns (a, (r, s.2 ++ [c])).

Definition logged_scan (scan : R -> T -> run (goerr * T * R))
    (s : R * list Call) (dest : T) : run (goerr * T * (R * list Call)) :=
  logging CallScan (fun r => scan r dest) s.

#[global] Instance logged_ResultSet : ResultSet (R * list Call) T :=
  {| Next := logging CallNext Next;
     NextResultSet := logging CallOther NextResultSet;
     Err := logging CallErr Err;
     Close := logging CallClose Close;
     Metadata := logging CallOther Metadata;
     ScanValue := logged_scan ScanValue;
     ScanDoc := logged_scan ScanDoc;
     ScanKey := logged_scan ScanKey;
     ID := logging CallOther ID;
     Rev := logging CallOther Rev;
     Key := logging CallOther Key |}.

End Logged.

(** What a driver's rows report as metadata: the warning and the bookmark
    when the driver implements them, the zero value otherwise. *)
Definition reported {D : Type} `{!driver.Rows D} (d : D) : ResultMetadata :=
  {| Offset := driver.Offset d;
     TotalRows := driver.TotalRows d;
     UpdateSeq := driver.UpdateSeq d;
     Warning := match driver.Warning with Some w => w d | None => "" end;
     Bookmark := match driver.Bookmark with Some b => b d | None => "" end |}.

(** ** Fixtures: a driver over a fixed list of rows, a raw decoder *)
Module fixture.

(** A [driver.Rows] that hands out the rows of a list and then signals
    [ending]: [io.EOF] for a complete result, [driver.EOQ] at the end of
    a query, any other error for a failure of the transport.  It
    implements [driver.RowsWarner] and not [driver.Bookmarker]. *)
Record listRows : Type := mkRows {
  pending : list driver.Row;
  ending : error;
  closeErr : goerr;
  closeCalls : nat;
  offset : Z;
  total : Z;
  warning : string
}.

Definition listRows_Next (d : listRows) (slot : driver.Row)
  : goerr * driver.Row * listRows :=
  match pending d with
  | [] => (Some (ending d), slot, d)
  | row :: rest =>
    (None, row,
     mkRows rest (ending d) (closeErr d) (closeCalls d) (offset d) (total d)
            (warning d))
  end.

Definition listRows_Close (d : listRows) : goerr * listRows :=
  (closeErr d,
   mkRows (pending d) (ending d) (closeErr d) (S (closeCalls d)) (offset d)
          (total d) (warning d)).

#[global] Instance listRows_Rows : driver.Rows listRows :=
  {| driver.Next := listRows_Next;
     driver.Close := listRows_Close;
     driver.UpdateSeq := fun _ => "";
     driver.Offset := offset;
     driver.TotalRows := total;
     driver.Warning := Some warning;
     driver.Bookmark := None |}.

Definition rowsOf (l : list driver.Row) : listRows :=
  mkRows l io_EOF None 0 0 (Z.of_nat (length l)) "".

(** A row with a document, a row that carries an error of its own. *)
Definition docRow (id doc : string) : driver.Row :=
  {| driver.ID := id; driver.Key := ""; driver.Value := None;
     driver.Doc := Some doc; driver.Error := None |}.
Definition failedRow (id : string) (e : error) : driver.Row :=
  {| driver.ID := id; driver.Key := ""; driver.Value := None;
     driver.Doc := None; driver.Error := Some e |}.

(** Decoding into a [json.RawMessage]: the raw input is stored; an
    exhausted reader gives [io.EOF] and leaves the destination alone. *)
Definition raw_Decode (reader : string) (dest : string)
  : goerr * string * string :=
  match reader with
  | EmptyString => (Some io_EOF, dest, "")
  | _ => (None, reader, "")
  end.

Definition raw_Unmarshal (data : string) (dest : string) : goerr * string :=
  match data with
  | EmptyString => (Some (errors_New "unexpected end of JSON input"), dest)
  | _ => (None, data)
  end.

#[global] Instance rawRows : ResultSet (rows.t listRows) string :=
  rows_ResultSet raw_Decode raw_Unmarshal.

(** A feed of the earlier revision's rows, over a list. *)
#[global] Instance legacyList : iterator (list legacy.Row) legacy.Row :=
  {| feed_Next := fun l slot =>
       match l with
       | [] => (Some io_EOF, slot, [])
       | row :: rest => (None, row, rest)
       end;
     feed_Close := fun l => (None, l) |}.

(** Five rows with documents ["1"] to ["5"]. *)
Definition five : listRows :=
  rowsOf [docRow "a" "1"; docRow "b" "2"; docRow "c" "3"; docRow "d" "4";
          docRow "e" "5"].

(** A feed whose [Close] fails. *)
Definition closeFails (l : list driver.Row) : listRows :=
  mkRows l io_EOF (Some (errors_New "close failed")) 0 0
         (Z.of_nat (length l)) "".

(** A feed that yields a row with an error of its own, then a good row;
    and one that yields them in the other order. *)
Definition badThenGood : listRows :=
  rowsOf [failedRow "a" (errors_New "not_found"); docRow "b" "2"].
Definition goodThenBad : listRows :=
  rowsOf [docRow "b" "2"; failedRow "a" (errors_New "not_found")].

(** A feed whose first fetch fails. *)
Definition broken : listRows :=
  mkRows [] (errors_New "connection reset") None 0 0 0 "".

(** One row of the first query of a multi-query result, with a warning. *)
Definition firstQuery : listRows :=
  mkRows [docRow "a" "1"] driver_EOQ None 0 7 42 "no matching index".

Definition firstQueryDrained : listRows :=
  mkRows [] driver_EOQ None 0 7 42 "no matching index".

(** The result set over [firstQuery] once its one row has been read and
    the driver has signalled the end of the query. *)
Definition atEndOfQuery : rows.t listRows :=
  rows.mk
    (Some (mkIter (rowsIterator.mk firstQueryDrained
                     (Some (reported firstQueryDrained)))
                  stateEOQ (docRow "a" "1") None 0))
    None.

(** A result set standing on a row that carries an error of its own and
    no document. *)
Definition onFailedRow : rows.t listRows :=
  rows.mk
    (Some (mkIter (rowsIterator.mk (rowsOf []) None) stateRowReady
                  (failedRow "a" (errors_New "not_found")) None 0))
    None.

(** A result set standing on a row of a query that did not ask for the
    documents: no document, no error. *)
Definition onBareRow : rows.t listRows :=
  rows.mk
    (Some (mkIter (rowsIterator.mk (rowsOf []) None) stateRowReady
                  {| driver.ID := "a"; driver.Key := "1";
                     driver.Value := Some "2"; driver.Doc := None;
                     driver.Error := None |}
                  None 0))
    None.

(** A result set with a locally recorded error, standing on a row. *)
Definition locallyFailed : rows.t listRows :=
  rows.mk
    (Some (mkIter (rowsIterator.mk (rowsOf []) None) stateRowReady
                  (docRow "a" "1") None 0))
    (Some (errors_New "local")).

(** The test of [iterator_test.go]: [&TestFeed{max: 10}]. *)
Definition tenItems : TestFeed.t := TestFeed.mk 10 0 None.

End fixture.

(** ** The client ([kivik.go]) *)
Module Client.

(** [validDBName], the compiled expression
    [^[a-z][a-z0-9_$()+/-]*$]: one lowercase letter, then any number of
    characters of the class; [$] is the end of the text. *)
Definition lower (c : ascii) : bool :=
  (97 <=? nat_of_ascii c) && (nat_of_ascii c <=? 122).
Definition digit (c : ascii) : bool :=
  (48 <=? nat_of_ascii c) && (nat_of_ascii c <=? 57).
Definition inClass (c : ascii) : bool :=
  lower c || digit c
  || bool_decide (c ∈ ["_"; "$"; "("; ")"; "+"; "/"; "-"]%char).

Fixpoint star (s : string) : bool :=
  match s with
  | EmptyString => true
  | String c rest => inClass c && star rest
  end.

Definition validDBName (s : string) : bool :=
  match s with
  | EmptyString => false
  | String c rest => lower c && star rest
  end.

Section WithDriver.

(** [driver.Client], with the two methods used below; [D] is the state
    of the driver's client. *)
Class driverClient (D : Type) : Type := {
  driver_CreateDBContext : D -> string -> goerr * D;
  driver_DestroyDBContext : D -> string -> goerr * D
}.

Context {D : Type} `{!driverClient D}.

(** [errors.Status(status, message)] and the constant
    [StatusBadRequest], which are declared outside the sources. *)
Variable errors_Status : Z -> string -> error.
Variable StatusBadRequest : Z.

Record t : Type := mk {
  AutoFlush : bool;
  dsn : string;
  driverClient_ : D
}.

Definition DSN (c : t) : string := dsn c.

Definition CreateDBContext (c : t) (dbName : string) : goerr * t :=
  if negb (validDBName dbName) then
    (Some (errors_Status StatusBadRequest "invalid database name"), c)
  else
    let '(e, d) := driver_CreateDBContext (driverClient_ c) dbName in
    (e, mk (AutoFlush c) (dsn c) d).

Definition DestroyDBContext (c : t) (dbName : string) : goerr * t :=
  let '(e, d) := driver_DestroyDBContext (driverClient_ c) dbName in
  (e, mk (AutoFlush c) (dsn c) d).

End WithDriver.
Arguments t D : clear implicits.
End Client.

(** ** The request logger ([serve/logger.go]) *)
Module serve.

Inductive LogLevel : Type :=
| LogLevelDebug
| LogLevelInfo
| LogLevelWarn
| LogLevelError.

(** A [logger.LogWriter] is known by the [WriteLog] calls it has
    received; [Service.LogWriter] is an interface value and may be nil. *)
Record Service : Type := mkService {
  LogWriter : option (list (LogLevel * string))
}.

(** An [http.ResponseWriter] is known by the calls it has received. *)
Inductive call : Type :=
| CallWriteHeader (status : Z)
| CallWrite (data : string).

(** The fields of [http.Request] the logger reads; [URL] is what
    [r.URL.String()] gives. *)
Record Request : Type := {
  RemoteAddr : string;
  Method : string;
  URL : string
}.

(** [statusWriter]: the embedded [http.ResponseWriter] refers to the
    writer whose calls are threaded below; [status] is the field. *)
Record statusWriter : Type := { status : Z }.

(** [strings.LastIndex(s, sep)] for a separator of one byte: the index
    of its last occurrence, or -1. *)
Fixpoint LastIndex_from (s : string) (sep : ascii) (pos found : Z) : Z :=
  match s with
  | EmptyString => found
  | String c rest =>
    LastIndex_from rest sep (pos + 1)
      (if bool_decide (c = sep) then pos else found)
  end.
Definition LastIndex (s : string) (sep : ascii) : Z :=
  LastIndex_from s sep 0 (-1).

(** [s[0:n]] for [n] within the string. *)
Fixpoint slice_to (n : nat) (s : string) : string :=
  match n, s with
  | S n, String c rest => String c (slice_to n rest)
  | _, _ => EmptyString
  end.

Section WithStrings.

(** [strings.TrimSpace] *)
Variable strings_TrimSpace : string -> string.

(** [log]; [msg] stands for [fmt.Sprintf(format, args...)]. *)
Definition log (s : Service) (level : LogLevel) (msg : string) : Service :=
  match LogWriter s with
  | None => s
  | Some w => mkService (Some (w ++ [(level, strings_TrimSpace msg)]))
  end.

Definition Debug (s : Service) (msg : string) : Service :=
  log s LogLevelDebug msg.
Definition Info (s : Service) (msg : string) : Service :=
  log s LogLevelInfo msg.
Definition Warn (s : Service) (msg : string) : Service :=
  log s LogLevelWarn msg.
Definition Error (s : Service) (msg : string) : Service :=
  log s LogLevelError msg.

(** [statusWriter.WriteHeader].  The receiver is a value: the method
    works on a copy of the [statusWriter], which it returns here next to
    the calls the underlying writer has received. *)
Definition WriteHeader (w : statusWriter) (code : Z) (under : list call)
  : statusWriter * list call :=
  let w := {| status := code |} in
  (w, under ++ [CallWriteHeader code]).

(** A handler, given the [statusWriter] as its [http.ResponseWriter]: it
    is known by the calls it makes on the writer for a request.
    [WriteHeader] goes through the method above, whose copy of the
    receiver is lost when it returns; [Write] is promoted from the
    embedded writer. *)
Definition ServeHTTP (next : Request -> list call) (sw : statusWriter)
    (r : Request) (under : list call) : list call :=
  foldl (fun under c =>
           match c with
           | CallWriteHeader code => (WriteHeader sw code under).2
           | CallWrite data => under ++ [CallWrite data]
           end) under (next r).

(** The handler [requestLogger] returns, applied to a request.
    [fmt.Sprintf] with the format ["%s - - %s %s %d"] is written out. *)
Definition requestLogger (s : Service) (next : Request -> list call)
    (r : Request) (under : list call) : run (Service * list call) :=
  let sw := {| status := 0 |} in
  let under := ServeHTTP next sw r under in
  let ip := RemoteAddr r in
  let n := LastIndex ip ":" in
  if (n <? 0)%Z then Panics "slice bounds out of range"
  else
    let ip := slice_to (Z.to_nat n) ip in
    Returns (Info s (ip +:+ " - - " +:+ Method r +:+ " " +:+ URL r +:+ " "
                        +:+ pretty (status sw)),
             under).

End WithStrings.
End serve.

(** The results of [k] successive calls of the test feed's [Next] on one
    slot: the error and what the slot holds after each. *)
Fixpoint fetches (k : nat) (f : TestFeed.t) (slot : Z)
  : list (goerr * Z) * TestFeed.t :=
  match k with
  | O => ([], f)
  | S k =>
    let '(e, slot, f) := TestFeed.Next f slot in
    let '(rest, f) := fetches k f slot in
    ((e, slot) :: rest, f)
  end.

(** What the caller of a scan method sees: the error and the
    destination. *)
Definition seen {T S : Type} (m : run (goerr * T * S)) : option (goerr * T) :=
  match m with
  | Returns (e, d, _) => Some (e, d)
  | _ => None
  end.

(** ** A driver client, a handler and requests to run the code on *)
Module sample.

(** A driver client that keeps the names of its databases: creating one
    that exists fails with 412, destroying one that does not exist fails
    with 404. *)
Definition memClient_Create (dbs : list string) (dbName : string)
  : goerr * list string :=
  if bool_decide (dbName ∈ dbs)
  then (Some (kivik_Error 412 "database exists" None), dbs)
  else (None, dbs ++ [dbName]).

Definition memClient_Destroy (dbs : list string) (dbName : string)
  : goerr * list string :=
  if bool_decide (dbName ∈ dbs)
  then (None, filter (fun n => n <> dbName) dbs)
  else (Some (kivik_Error 404 "database not found" None), dbs).

#[global] Instance memClient : Client.driverClient (list string) :=
  {| Client.driver_CreateDBContext := memClient_Create;
     Client.driver_DestroyDBContext := memClient_Destroy |}.

(** [errors.Status] as an [Error] value with the status and the
    message. *)
Definition statusError (status : Z) (msg : string) : error :=
  kivik_Error status msg None.

Definition client : Client.t (list string) :=
  Client.mk false "memory://" ["accounts"].

(** [strings.TrimSpace] on ASCII text: the white space at both ends is
    removed. *)
Definition isSpace (c : ascii) : bool :=
  bool_decide (c ∈ [" "; "009"; "010"; "011"; "012"; "013"]%char).
Fixpoint trimLeft (s : string) : string :=
  match s with
  | String c rest => if isSpace c then trimLeft rest else s
  | EmptyString => EmptyString
  end.
Definition trimSpace (s : string) : string :=
  String.rev (trimLeft (String.rev (trimLeft s))).

(** A handler that answers 404 with a body. *)
Definition notFound (r : serve.Request) : list serve.call :=
  [serve.CallWriteHeader 404; serve.CallWrite "{}"].

Definition overUnixSocket : serve.Request :=
  {| serve.RemoteAddr := "@"; serve.Method := "GET";
     serve.URL := "/accounts" |}.

Definition service : serve.Service := serve.mkService (Some []).

End sample.

(** ** Vocabulary of the statements *)

(** The characters a database name may start with, and go on with. *)
Definition lowercase (c : ascii) : Prop :=
  97 <= nat_of_ascii c <= 122.
Definition nameChar (c : ascii) : Prop :=
  lowercase c \/ 48 <= nat_of_ascii c <= 57
  \/ c ∈ ["_"; "$"; "("; ")"; "+"; "/"; "-"]%char.

(** [MaxInt64] *)
Definition MaxInt64 : Z := (2 ^ 63 - 1)%Z.


Section Rounds.
Context {R T : Type} `{!ResultSet R T}.
Variable zero : T.
Variable scan : R -> T -> run (goerr * T * R).

(** The first [k] rows of a result set as a scan sees them: [k] times
    an advance that succeeds and a scan into a fresh element, giving the
    scan's error and the element for each row, and the result set after
    them.  [None] when the result set has fewer than [k] rows. *)
Fixpoint rounds (k : nat) (r : R) : option (list (goerr * T) * R) :=
  match k with
  | O => Some ([], r)
  | S k =>
    match Next r with
    | Returns (true, r) =>
      match scan r zero with
      | Returns (e, v, r) =>
        match rounds k r with
        | Some (items, r) => Some ((e, v) :: items, r)
        | None => None
        end
      | _ => None
      end
    | _ => None
    end
  end.

End Rounds.

Section Feeds.
Context {F Slot : Type} `{!iterator F Slot}.

(** A feed that yields [n] items and then signals end of data, whatever
    the slot it is handed holds. *)
Fixpoint yields (n : nat) (f : F) : Prop :=
  match n with
  | O => forall slot, (feed_Next f slot).1.1 = Some io_EOF
  | S n =>
    forall slot,
      (feed_Next f slot).1.1 = None /\ yields n (feed_Next f slot).2
  end.

(** The results of [k] successive calls of the iterator's [Next]. *)
Fixpoint nexts (k : nat) (i : iter F Slot) : list bool * iter F Slot :=
  match k with
  | O => ([], i)
  | S k =>
    let '(b, i) := iter_Next i in
    let '(bs, i) := nexts k i in
    (b :: bs, i)
  end.

End Feeds.

(** A result set left open on a given row: its next advance succeeds and
    makes that row the current one. *)
Definition left_open_at (r : rows.t fixture.listRows) (row : driver.Row) : Prop :=
  exists r' i,
    rows.Next r = Returns (true, r') /\ rows.iter_ r' = Some i /\ curVal i = row.

(** * Properties *)

(** ** The bulk-scan engine *)

Section BulkScanFacts.
Context {R T : Type} `{!ResultSet R T}.
Variable zero : T.
Variable scan : R -> T -> run (goerr * T * R).

(** Every exit of the loop is a [return nil]: whatever the scans
    assigned to [err], the body returns no error once it has entered the
    loop. *)
Lemma scanAll_body_array_nil fuel r a e dest' r' :
  Err r = Returns (None, r') ->
  length a <> 0 ->
  forall r'', scanAll_body zero scan fuel r (ArrayPtr a) = Returns (e, dest', r'') ->
  e = None.
Proof.
  intros HErr Hlen r''. unfold scanAll_body. rewrite HErr. simpl.
  destruct (length a =? 0) eqn:E; [apply Nat.eqb_eq in E; lia|].
  destruct (scanAll_loop zero scan fuel (length a) 0 r' a None)
    as [[[? ?] ?]| |]; simpl; congruence.
Qed.

Lemma scanAll_body_slice_nil fuel r s e dest' r' :
  Err r = Returns (None, r') ->
  forall r'', scanAll_body zero scan fuel r (SlicePtr s) = Returns (e, dest', r'') ->
  e = None.
Proof.
  intros HErr r''. unfold scanAll_body. rewrite HErr. simpl.
  destruct (scanAll_loop zero scan fuel 0 0 r' s None)
    as [[[? ?] ?]| |]; simpl; congruence.
Qed.

(** Filling an array: after [i] elements are in place, [k] more rows
    fill the rest, and the next successful advance ends the loop. *)
Lemma scanAll_loop_fills k : forall limit i r direct err items rK rK1,
  0 < limit -> i + k = limit -> length direct = limit ->
  rounds zero scan k r = Some (items, rK) ->
  Next rK = Returns (true, rK1) ->
  forall fuel, k < fuel ->
  exists err',
    scanAll_loop zero scan fuel limit i r direct err
    = Returns (rK1, take i direct ++ items.*2, err').
Proof.
  induction k as [|k IH]; intros limit i r direct err items rK rK1
    Hpos Hik Hlen Hrounds Hnext fuel Hfuel;
    (destruct fuel as [|fuel]; [lia|]); simpl in Hrounds |- *.
  - injection Hrounds as <- <-. rewrite Hnext. simpl.
    assert ((0 <? limit) = true) as -> by (apply Nat.ltb_lt; lia).
    assert ((limit <=? i) = true) as -> by (apply Nat.leb_le; lia).
    simpl. exists err. rewrite app_nil_r, take_ge by lia. reflexivity.
  - destruct (Next r) as [[[|] r1]| |] eqn:HN; try discriminate.
    destruct (scan r1 zero) as [[[e v] r2]| |] eqn:HS; try discriminate.
    destruct (rounds zero scan k r2) as [[items' r3]|] eqn:HR; try discriminate.
    injection Hrounds as <- <-. simpl.
    assert ((0 <? limit) = true) as -> by (apply Nat.ltb_lt; lia).
    assert ((limit <=? i) = false) as -> by (apply Nat.leb_gt; lia).
    simpl.
    destruct (IH limit (S i) r2 (<[i:=v]> direct) e items' r3 rK1)
      with (fuel := fuel) as [err' Heq];
      [lia | lia | by rewrite length_insert | done | done | lia |].
    exists err'. rewrite HS. simpl. rewrite Heq. f_equal. f_equal. f_equal.
    assert (i < length direct) as Hi by lia.
    rewrite (take_S_r _ _ v) by (by apply list_lookup_insert_eq).
    rewrite take_insert_ge by lia. by rewrite <- app_assoc.
Qed.

(** One turn of the loop. *)
Lemma scanAll_loop_S fuel limit i r direct err :
  scanAll_loop zero scan (S fuel) limit i r direct err
  = match Next r with
    | Returns (more, r) =>
      if negb more then Returns (r, direct, err)
      else if (0 <? limit) && (limit <=? i) then Returns (r, direct, err)
      else
        match scan r zero with
        | Returns (e, v, r) =>
          scanAll_loop zero scan fuel limit (S i) r
            (if 0 <? limit then <[i := v]> direct else direct ++ [v]) e
        | Panics s => Panics s
        | OutOfFuel => OutOfFuel
        end
    | Panics s => Panics s
    | OutOfFuel => OutOfFuel
    end.
Proof.
  simpl. destruct (Next r) as [[more r1]| |]; reflexivity.
Qed.

(** What the logging wrapper does to a call. *)
Lemma logging_eq {A : Type} (c : Call) (m : R -> run (A * R)) r log :
  logging c m (r, log)
  = match m r with
    | Returns (a, r') => Returns (a, (r', log ++ [c]))
    | Panics s => Panics s
    | OutOfFuel => OutOfFuel
    end.
Proof. unfold logging. simpl. destruct (m r) as [[a r']| |]; reflexivity. Qed.

Lemma logged_scan_eq r log dest :
  logged_scan scan (r, log) dest
  = match scan r dest with
    | Returns (e, v, r') => Returns (e, v, (r', log ++ [CallScan]))
    | Panics s => Panics s
    | OutOfFuel => OutOfFuel
    end.
Proof.
  unfold logged_scan. rewrite logging_eq.
  destruct (scan r dest) as [[[e v] r']| |]; reflexivity.
Qed.

(** Draining into a slice: [k] rows are scanned and appended, then the
    advance that fails ends the loop.  At that point [err] holds what
    the last scan returned. *)
Lemma scanAll_loop_drains k : forall i r direct err items rK rK1,
  rounds zero scan k r = Some (items, rK) ->
  Next rK = Returns (false, rK1) ->
  forall fuel, k < fuel ->
    scanAll_loop zero scan fuel 0 i r direct err
    = Returns (rK1, direct ++ items.*2, default err (last (items.*1))).
Proof.
  induction k as [|k IH]; intros i r direct err items rK rK1
    Hrounds Hnext fuel Hfuel;
    (destruct fuel as [|fuel]; [lia|]); rewrite scanAll_loop_S;
    cbn [rounds] in Hrounds.
  - injection Hrounds as <- <-. rewrite Hnext. simpl.
    by rewrite app_nil_r.
  - destruct (Next r) as [[[|] r1]| |] eqn:HN; try discriminate.
    destruct (scan r1 zero) as [[[e v] r2]| |] eqn:HS; try discriminate.
    destruct (rounds zero scan k r2) as [[items' r3]|] eqn:HR; try discriminate.
    injection Hrounds as <- <-. simpl.
    rewrite (IH (S i) r2 (direct ++ [v]) e items' r3 rK1 HR Hnext) by lia.
    rewrite <- app_assoc. simpl. do 2 f_equal.
    destruct items' as [|[e' v'] items'']; [reflexivity|].
    cbn [fmap list_fmap fst]. rewrite last_cons_cons.
    destruct (last (e' :: _)) eqn:E; [reflexivity|].
    apply last_None in E. discriminate.
Qed.

(** Whatever the scans reported, a drained result set gives back the
    close error and nothing else: no decode error is ever returned. *)
Lemma scanAll_slice_drained (s : list T) r r0 items rK rK1 closeErr rF :
  Err r = Returns (None, r0) ->
  rounds zero scan (length items) r0 = Some (items, rK) ->
  Next rK = Returns (false, rK1) ->
  Close rK1 = Returns (closeErr, rF) ->
  forall fuel, length items < fuel ->
    scanAll zero scan fuel r (SlicePtr s)
    = Returns (closeErr, SlicePtr (s ++ items.*2), rF).
Proof.
  intros HErr Hrounds HNext HClose fuel Hfuel.
  unfold scanAll, scanAll_body. rewrite HErr. simpl.
  rewrite (scanAll_loop_drains _ 0 r0 s None items rK rK1 Hrounds HNext)
    by lia.
  simpl. rewrite HClose. reflexivity.
Qed.

End BulkScanFacts.

Section LoggedFacts.
Context {R T : Type} `{!ResultSet R T}.
Variable zero : T.
Variable scan : R -> T -> run (goerr * T * R).

(** The same run seen through the call log: every round is an advance
    followed by a scan. *)
Lemma rounds_logged k : forall r log items rK,
  rounds zero scan k r = Some (items, rK) ->
  rounds zero (logged_scan scan) k (r, log)
  = Some (items, (rK, log ++ mjoin (replicate k [CallNext; CallScan]))).
Proof.
  induction k as [|k IH]; intros r log items rK Hrounds.
  - simpl in *. injection Hrounds as <- <-. by rewrite app_nil_r.
  - cbn [rounds] in *. change (Next (r, log)) with (logging CallNext Next (r, log)).
    rewrite logging_eq.
    destruct (Next r) as [[[|] r1]| |] eqn:HN; try discriminate.
    rewrite logged_scan_eq.
    destruct (scan r1 zero) as [[[e v] r2]| |] eqn:HS; try discriminate.
    destruct (rounds zero scan k r2) as [[items' r3]|] eqn:HR; try discriminate.
    injection Hrounds as <- <-.
    rewrite (IH r2 _ items' r3 HR). do 3 f_equal.
    simpl. by rewrite <- !app_assoc.
Qed.

(** The loop calls nothing but [Next] and the scan function. *)
Lemma scanAll_loop_calls fuel : forall limit i r log direct err r' log' direct' err',
  scanAll_loop zero (logged_scan scan) fuel limit i (r, log) direct err
  = Returns ((r', log'), direct', err') ->
  exists calls,
    log' = log ++ calls /\ Forall (fun c => c = CallNext \/ c = CallScan) calls.
Proof.
  induction fuel as [|fuel IH];
    intros limit i r log direct err r' log' direct' err' Hloop;
    [discriminate|].
  rewrite scanAll_loop_S in Hloop.
  change (Next (r, log)) with (logging CallNext Next (r, log)) in Hloop.
  rewrite logging_eq in Hloop.
  destruct (Next r) as [[more r1]| |]; try discriminate.
  assert (exists calls, log' = (log ++ [CallNext]) ++ calls /\
            Forall (fun c => c = CallNext \/ c = CallScan) calls)
    as (calls & -> & Hcalls).
  { destruct more; simpl in Hloop.
    - destruct ((0 <? limit) && (limit <=? i)).
      + injection Hloop as <- <- <- <-. exists []. by rewrite !app_nil_r.
      + rewrite logged_scan_eq in Hloop.
        destruct (scan r1 zero) as [[[e v] r2]| |]; try discriminate.
        apply IH in Hloop as (calls & -> & Hcalls).
        exists (CallScan :: calls). split.
        * by rewrite <- !app_assoc.
        * constructor; [by right | done].
    - injection Hloop as <- <- <- <-. exists []. by rewrite !app_nil_r. }
  exists (CallNext :: calls). split; [by rewrite <- app_assoc|].
  constructor; [by left | done].
Qed.

(** Before the deferred function runs, the body has called [Err] and,
    in the loop, [Next] and the scan function: never [Close]. *)
Lemma scanAll_body_calls fuel r log dest e dest' r' log' :
  scanAll_body zero (logged_scan scan) fuel (r, log) dest
  = Returns (e, dest', (r', log')) ->
  exists calls, log' = log ++ calls /\ CallClose ∉ calls.
Proof.
  unfold scanAll_body.
  change (Err (r, log)) with (logging CallErr Err (r, log)).
  rewrite logging_eq.
  destruct (Err r) as [[e0 r0]| |]; try discriminate. simpl.
  assert (forall limit i a x,
    (scanAll_loop zero (logged_scan scan) fuel limit i (r0, log ++ [CallErr]) a None
       ≫= (fun '(r, direct, _) => Returns (None, x direct, r)))
    = Returns (e, dest', (r', log')) ->
    exists calls, log' = log ++ calls /\ CallClose ∉ calls) as Hloop.
  { intros limit i a x Hrun.
    destruct (scanAll_loop _ _ _ _ _ _ _ _) as [[[[r1 log1] d1] e1]| |] eqn:HL;
      try discriminate.
    apply scanAll_loop_calls in HL as (calls & -> & Hcalls).
    simpl in Hrun. injection Hrun as <- <- <- <-.
    exists (CallErr :: calls). split; [by rewrite <- app_assoc|].
    intros Hin. apply elem_of_cons in Hin as [|Hin]; [discriminate|].
    rewrite Forall_forall in Hcalls.
    destruct (Hcalls _ Hin); discriminate. }
  assert (forall (e1 : goerr) (d1 : Dest T),
    Returns (e1, d1, (r0, log ++ [CallErr])) = Returns (e, dest', (r', log')) ->
    exists calls, log' = log ++ calls /\ CallClose ∉ calls) as Hret.
  { intros e1 d1 Heq. injection Heq as <- <- <- <-.
    exists [CallErr]. split; [done|].
    intros Hin. apply list_elem_of_singleton in Hin. discriminate. }
  destruct e0 as [e0|]; [by apply Hret|].
  destruct dest as [| |a|s|]; try (by apply Hret).
  - destruct (length a =? 0); [by apply Hret|].
    apply (Hloop _ _ _ ArrayPtr).
  - apply (Hloop _ _ _ SlicePtr).
Qed.

(** Whenever [scanAll] returns, it has called [Close] on the result
    set, as its last call and only once, whether the body returned an
    error or not; and the error it returns is the one the body returned
    when there is one (the close error is then dropped), the close error
    otherwise.  An error a scan reported in the loop is not among the
    errors the body returns. *)
Lemma scanAll_closes_on_return fuel r log dest err dest' r' log' :
  scanAll zero (logged_scan scan) fuel (r, log) dest
  = Returns (err, dest', (r', log')) ->
  (exists calls, log' = log ++ calls ++ [CallClose] /\ CallClose ∉ calls) /\
  exists bodyErr closeErr r0 log0,
    scanAll_body zero (logged_scan scan) fuel (r, log) dest
    = Returns (bodyErr, dest', (r0, log0)) /\
    Close r0 = Returns (closeErr, r') /\
    err = match bodyErr with Some e => Some e | None => closeErr end.
Proof.
  unfold scanAll. intros Hrun.
  destruct (scanAll_body _ _ _ _ _) as [[[bodyErr d] [r0 log0]]| |] eqn:Hbody;
    try discriminate.
  simpl in Hrun.
  change (Close (r0, log0)) with (logging CallClose Close (r0, log0)) in Hrun.
  rewrite logging_eq in Hrun.
  destruct (Close r0) as [[closeErr r1]| |] eqn:HClose; try discriminate.
  simpl in Hrun. injection Hrun as <- <- <- <-.
  apply scanAll_body_calls in Hbody as Hcalls.
  destruct Hcalls as (calls & -> & Hcalls). split.
  - exists calls. by rewrite <- app_assoc.
  - by exists bodyErr, closeErr, r0, (log ++ calls).
Qed.

(** C5 (amended). A pointer to an array of length 0 is rejected before
    any iteration, whatever the fuel: [scanAll] returns an error (the one
    [Err] reports if the result set is already in error, the 0-length
    error otherwise), the array is untouched, and no row is advanced and
    none is scanned.  The result set does not stay as it was: it receives
    the [Err] check and the deferred [Close], and comes back closed; the
    close error is dropped. *)
Theorem scanAll_zero_length_array fuel r log e r1 closeErr r2 :
  Err r = Returns (e, r1) ->
  Close r1 = Returns (closeErr, r2) ->
  scanAll zero (logged_scan scan) fuel (r, log) (ArrayPtr [])
  = Returns (Some (default (errors_New "0-length array passed to ScanAllDocs") e),
             ArrayPtr [], (r2, log ++ [CallErr; CallClose])).
Proof.
  intros HErr HClose. unfold scanAll, scanAll_body.
  change (Err (r, log)) with (logging CallErr Err (r, log)).
  rewrite logging_eq, HErr. simpl.
  destruct e as [e|]; simpl;
    change (Close (r1, log ++ [CallErr]))
      with (logging CallClose Close (r1, log ++ [CallErr]));
    rewrite logging_eq, HClose; simpl; by rewrite <- app_assoc.
Qed.

(** C1 (amended). Into a pointer to an array of length K > 0, from a
    result set that reports no error and has more than K rows, each of
    the first K scanned without error, [scanAll] scans K rows and stops:
    the array holds the elements the first K scans produced, in order;
    the result set has been advanced K + 1 times, the last advance
    reaching a row that is not scanned, and is then closed by the
    deferred [Close]; no error having occurred before, the close error
    is the one returned. *)
Theorem scanAll_array_filled (a : list T) r log r0 items rK rK1 closeErr rF :
  0 < length a ->
  Err r = Returns (None, r0) ->
  rounds zero scan (length a) r0 = Some (items, rK) ->
  Forall (fun p : goerr * T => p.1 = None) items ->
  Next rK = Returns (true, rK1) ->
  Close rK1 = Returns (closeErr, rF) ->
  forall fuel, length a < fuel ->
    scanAll zero (logged_scan scan) fuel (r, log) (ArrayPtr a)
    = Returns (closeErr, ArrayPtr (items.*2),
               (rF, log ++ [CallErr]
                        ++ mjoin (replicate (length a) [CallNext; CallScan])
                        ++ [CallNext; CallClose])).
Proof.
  intros Hpos HErr Hrounds _ HNext HClose fuel Hfuel.
  unfold scanAll, scanAll_body.
  change (Err (r, log)) with (logging CallErr Err (r, log)).
  rewrite logging_eq, HErr. simpl.
  destruct (length a =? 0) eqn:E; [apply Nat.eqb_eq in E; lia|].
  pose proof (rounds_logged _ _ (log ++ [CallErr]) _ _ Hrounds) as HR.
  destruct (scanAll_loop_fills zero (logged_scan scan) (length a) (length a) 0
              (r0, log ++ [CallErr]) a None items _
              (rK1, (log ++ [CallErr]
                     ++ mjoin (replicate (length a) [CallNext; CallScan]))
                    ++ [CallNext])
              Hpos eq_refl eq_refl HR) with (fuel := fuel) as [err' Hloop];
    [|done|].
  { change (Next (rK, ?l)) with (logging CallNext Next (rK, l)).
    rewrite logging_eq, HNext. by rewrite <- !app_assoc. }
  rewrite Hloop. simpl.
  change (Close (rK1, ?l)) with (logging CallClose Close (rK1, l)).
  rewrite logging_eq, HClose. simpl. by rewrite <- !app_assoc.
Qed.

End LoggedFacts.

Section BulkScanExamples.
Import fixture.

Lemma scanAll_zero_length_array_witness :
  exists r2,
    scanAll "" (logged_scan ScanDoc) 0 (rows.newRows five, []) (ArrayPtr [])
    = Returns (Some (errors_New "0-length array passed to ScanAllDocs"),
               ArrayPtr [], (r2, [CallErr; CallClose])).
Proof.
  eexists.
  apply (scanAll_zero_length_array "" ScanDoc 0 (rows.newRows five) []
           None (rows.newRows five) None);
    vm_compute; reflexivity.
Defined.

Lemma scanAll_array_filled_witness :
  exists rF,
    scanAll "" (logged_scan ScanDoc) 4 (rows.newRows five, [])
      (ArrayPtr [""; ""; ""])
    = Returns (None, ArrayPtr ["1"; "2"; "3"],
               (rF, [CallErr; CallNext; CallScan; CallNext; CallScan;
                     CallNext; CallScan; CallNext; CallClose])).
Proof.
  eexists.
  eapply (scanAll_array_filled "" ScanDoc [""; ""; ""] (rows.newRows five) []
            (rows.newRows five)
            [(None, "1"); (None, "2"); (None, "3")]);
    [simpl; lia | vm_compute; reflexivity | vm_compute; reflexivity
    | repeat constructor | vm_compute; reflexivity | vm_compute; reflexivity
    | simpl; lia].
Defined.

(** C1, as stated, fails: with capacity 3 and five rows the destination
    holds the first three documents, but the result set is not left
    open.  It comes back closed, its feed closed once; advancing it
    yields false, not the fourth row, which the loop has already
    advanced to and dropped. *)
Lemma scanAll_array_left_open_counterexample :
  exists rF i,
    ScanAllDocs "" 5 (rows.newRows five) (ArrayPtr [""; ""; ""])
    = Returns (None, ArrayPtr ["1"; "2"; "3"], rF) /\
    rows.iter_ rF = Some i /\
    state i = stateClosed /\
    closeCalls (rowsIterator.Rows (feed i)) = 1 /\
    curVal i = docRow "d" "4" /\
    rows.Next rF = Returns (false, rF) /\
    ~ left_open_at rF (docRow "d" "4").
Proof.
  eexists _, _. split; [vm_compute; reflexivity|]. split; [reflexivity|].
  repeat split.
  intros (r' & i' & HNext & _). vm_compute in HNext. discriminate HNext.
Qed.

(** C5, as stated, fails: a 0-length array is refused without a row
    being advanced, but the result set is touched.  Five rows were
    waiting, the first of them within reach of an advance; the result set
    comes back closed, its feed closed once, and its next advance yields
    false. *)
Lemma scanAll_zero_length_array_closes_counterexample :
  exists rF i,
    ScanAllDocs "" 0 (rows.newRows five) (ArrayPtr [])
    = Returns (Some (errors_New "0-length array passed to ScanAllDocs"),
               ArrayPtr [], rF) /\
    left_open_at (rows.newRows five) (docRow "a" "1") /\
    rF <> rows.newRows five /\
    rows.iter_ rF = Some i /\
    state i = stateClosed /\
    closeCalls (rowsIterator.Rows (feed i)) = 1 /\
    rows.Next rF = Returns (false, rF) /\
    ~ left_open_at rF (docRow "a" "1").
Proof.
  eexists _, _. split; [vm_compute; reflexivity|].
  split; [eexists _, _; vm_compute; repeat split|].
  split; [discriminate|]. split; [reflexivity|].
  repeat split.
  intros (r' & i' & HNext & _). vm_compute in HNext. discriminate HNext.
Qed.

(** C4. [Close] is called before [scanAll] returns, last and once, but
    the first error does not win.  On a result set whose first row fails
    to decode and whose [Close] fails, the scan of the first row reports
    the row's error, the one-element array is full, the next advance
    ends the loop by [return nil], and the deferred function, finding the
    result nil, returns the close error: the error that occurred earlier
    is lost and the later one is surfaced.  With rows that decode, the
    same close error is returned, rightly. *)
Theorem scanAll_close_error_hides_decode_error :
  exists rK rF rF',
    rounds "" ScanDoc 1
      (rows.newRows (closeFails [failedRow "a" (errors_New "not_found");
                                 docRow "b" "2"]))
    = Some ([(Some (errors_New "not_found"), "")], rK) /\
    scanAll "" (logged_scan ScanDoc) 3
      (rows.newRows (closeFails [failedRow "a" (errors_New "not_found");
                                 docRow "b" "2"]), [])
      (ArrayPtr ["x"])
    = Returns (Some (errors_New "close failed"), ArrayPtr [""],
               (rF, [CallErr; CallNext; CallScan; CallNext; CallClose])) /\
    scanAll "" (logged_scan ScanDoc) 3
      (rows.newRows (closeFails [docRow "a" "1"; docRow "b" "2"]), [])
      (ArrayPtr ["x"])
    = Returns (Some (errors_New "close failed"), ArrayPtr ["1"],
               (rF', [CallErr; CallNext; CallScan; CallNext; CallClose])).
Proof. eexists _, _, _. repeat split; vm_compute; reflexivity. Qed.

(** C2. On a result set whose first row fails to decode and whose
    second row decodes, [ScanAllDocs] into a slice returns nil: the
    first scan reports the row's error, both elements are written, and
    the error is lost at the [return nil] that ends the loop. *)
Theorem scanAll_drops_decode_error :
  exists rK rF,
    rounds "" ScanDoc 2 (rows.newRows badThenGood)
    = Some ([(Some (errors_New "not_found"), ""); (None, "2")], rK) /\
    ScanAllDocs "" 3 (rows.newRows badThenGood) (SlicePtr [])
    = Returns (None, SlicePtr [""; "2"], rF).
Proof. eexists _, _. split; vm_compute; reflexivity. Qed.

(** C10. On a result set whose last row fails to decode, the loop goes
    on after a failure and writes an element for every row, the failed
    row's being the zero value; when the loop ends the variable [err]
    holds the last row's decode error; and [ScanAllDocs] returns nil all
    the same, because the loop is left by [return nil]. *)
Theorem scanAll_last_decode_error_lost :
  exists rL rF rF',
    scanAll_loop "" ScanDoc 3 0 0 (rows.newRows goodThenBad) [] None
    = Returns (rL, ["2"; ""], Some (errors_New "not_found")) /\
    ScanAllDocs "" 3 (rows.newRows goodThenBad) (SlicePtr [])
    = Returns (None, SlicePtr ["2"; ""], rF) /\
    ScanAllDocs "" 3 (rows.newRows badThenGood) (ArrayPtr ["x"; "y"; "z"])
    = Returns (None, ArrayPtr [""; "2"; "z"], rF').
Proof. eexists _, _, _. repeat split; vm_compute; reflexivity. Qed.

End BulkScanExamples.

(** ** The iterator core and the test feed *)

Section IteratorFacts.
Context {F Slot : Type} `{!iterator F Slot}.

Lemma iter_Next_closed (i : iter F Slot) :
  state i = stateClosed -> iter_Next i = (false, i).
Proof.
  intros Hc. unfold iter_Next. destruct (lasterr i); [reflexivity|].
  destruct (decide (state i = stateClosed)); [reflexivity | contradiction].
Qed.

Lemma nexts_closed k : forall (i : iter F Slot),
  state i = stateClosed -> nexts k i = (replicate k false, i).
Proof.
  induction k as [|k IH]; intros i Hc; simpl; [reflexivity|].
  rewrite (iter_Next_closed i Hc), (IH i Hc). reflexivity.
Qed.

Lemma nexts_yields n : forall (i : iter F Slot),
  lasterr i = None -> state i <> stateClosed -> yields n (feed i) ->
  exists i',
    nexts (S n) i = (replicate n true ++ [false], i') /\
    iter_Err i' = None /\ state i' = stateClosed.
Proof.
  induction n as [|n IH]; intros i Herr Hstate Hy.
  - specialize (Hy (curVal i)). cbn [nexts]. unfold iter_Next.
    rewrite Herr. destruct (decide (state i = stateClosed)); [contradiction|].
    destruct (feed_Next (feed i) (curVal i)) as [[e slot] f]. simpl in Hy.
    subst e. unfold shutdown. destruct (feed_Close f) as [ce f']. simpl.
    eexists. split; [reflexivity|]. split; reflexivity.
  - destruct (Hy (curVal i)) as [He Hrest].
    change (nexts (S (S n)) i)
      with (let '(b, i1) := iter_Next i in
            let '(bs, i2) := nexts (S n) i1 in (b :: bs, i2)).
    unfold iter_Next. rewrite Herr.
    destruct (decide (state i = stateClosed)); [contradiction|].
    destruct (feed_Next (feed i) (curVal i)) as [[e slot] f]. simpl in He, Hrest.
    subst e.
    destruct (IH (mkIter f stateRowReady slot None (onCloseCalls i)))
      as (i' & Hn & He' & Hs'); [reflexivity | discriminate | exact Hrest |].
    rewrite Hn. exists i'. split; [reflexivity|]. by split.
Qed.

(** C3. Over a feed that yields N items and then signals end of data,
    N + 1 calls of the iterator's [Next] give N times true and then
    false; [Err] is nil afterwards, and every further [Next] is false. *)
Theorem Next_true_N_times_then_false n (f : F) (zeroValue : Slot) :
  yields n f ->
  exists i',
    nexts (S n) (newIterator f zeroValue) = (replicate n true ++ [false], i') /\
    iter_Err i' = None /\
    forall k, (nexts k i').1 = replicate k false.
Proof.
  intros Hy.
  destruct (nexts_yields n (newIterator f zeroValue))
    as (i' & Hn & He & Hs); [reflexivity | discriminate | exact Hy |].
  exists i'. split; [exact Hn|]. split; [exact He|].
  intros k. by rewrite (nexts_closed k i' Hs).
Qed.

End IteratorFacts.

Lemma int64_small (z : Z) :
  (- 2 ^ 63 <= z < 2 ^ 63)%Z -> TestFeed.int64 z = z.
Proof. intros Hz. unfold TestFeed.int64. rewrite Z.mod_small; lia. Qed.

(** The test feed with [max] = m, standing at [i], yields the m - i items
    that are left. *)
Lemma TestFeed_yields n : forall (m i : Z) (ce : goerr),
  (0 <= i)%Z -> (m < 2 ^ 63 - 1)%Z -> m = (i + Z.of_nat n)%Z ->
  yields n (TestFeed.mk m i ce).
Proof.
  induction n as [|n IH]; intros m i ce Hi Hm Heq; simpl; intros slot.
  - unfold TestFeed.Next. simpl. rewrite int64_small by lia.
    assert ((m <? i + 1)%Z = true) as -> by (apply Z.ltb_lt; lia).
    reflexivity.
  - unfold TestFeed.Next. simpl. rewrite int64_small by lia.
    assert ((m <? i + 1)%Z = false) as -> by (apply Z.ltb_ge; lia).
    simpl. split; [reflexivity|]. apply IH; lia.
Qed.

Lemma Next_true_N_times_then_false_witness :
  exists i',
    nexts 11 (newIterator fixture.tenItems 0%Z)
    = ([true; true; true; true; true; true; true; true; true; true; false], i') /\
    iter_Err i' = None /\
    forall k, (nexts k i').1 = replicate k false.
Proof.
  apply (Next_true_N_times_then_false 10 fixture.tenItems 0%Z).
  vm_compute. repeat (intros _; split; [reflexivity|]). intros _. reflexivity.
Defined.

(** ** The methods of [rows] *)

Section RowsFacts.
Context {D : Type} `{!driver.Rows D}.

(** C6. [NextResultSet] on a row that is ready fails: it returns false
    and leaves an error recorded ("must call NextResultSet before Next"
    when none was recorded before), the state unchanged.  When the state
    is [Closed] or an error is already recorded it returns false and
    changes nothing.  Otherwise it returns true and the state is
    [ResultSetReady], with no error recorded. *)
Theorem NextResultSet_transitions (r : rows.t D)
    (i : iter (rowsIterator.t D) driver.Row) :
  rows.iter_ r = Some i ->
  (state i = stateRowReady ->
     exists i',
       rows.NextResultSet r = Returns (false, rows.mk (Some i') (rows.err r)) /\
       lasterr i' <> None /\
       (lasterr i = None ->
        lasterr i' = Some (errors_New "must call NextResultSet before Next")) /\
       state i' = stateRowReady /\ feed i' = feed i /\ curVal i' = curVal i) /\
  (state i = stateClosed \/ lasterr i <> None ->
     rows.NextResultSet r = Returns (false, r)) /\
  (state i <> stateRowReady -> state i <> stateClosed -> lasterr i = None ->
     exists i',
       rows.NextResultSet r = Returns (true, rows.mk (Some i') (rows.err r)) /\
       state i' = stateResultSetReady /\ lasterr i' = None /\
       feed i' = feed i /\ curVal i' = curVal i).
Proof.
  intros Hi. destruct r as [it e]. simpl in Hi. subst it.
  unfold rows.NextResultSet, rows.deref. simpl.
  split; [|split].
  - intros Hs. destruct (lasterr i) as [le|] eqn:Hle.
    + exists i. repeat split; try congruence.
    + destruct (decide (state i = stateClosed)); [congruence|].
      destruct (decide (state i = stateRowReady)); [|contradiction].
      eexists. split; [reflexivity|]. simpl. repeat split; congruence.
  - intros [Hs|He].
    + destruct (lasterr i); [reflexivity|].
      destruct (decide (state i = stateClosed)); [reflexivity|contradiction].
    + destruct (lasterr i); [reflexivity|contradiction].
  - intros Hn1 Hn2 Hle. rewrite Hle.
    destruct (decide (state i = stateClosed)); [contradiction|].
    destruct (decide (state i = stateRowReady)); [contradiction|].
    eexists. split; [reflexivity|]. simpl. by repeat split.
Qed.

(** C7. [Metadata] returns the "not ready" error (a 400) whenever the
    state is neither [EndOfQuery] nor [Closed], a nil iterator included.
    In one of these two states, once the feed's [Next] has signalled end
    of data or end of query (and whether or not the feed has been closed
    since), it returns without error what the driver reported at that
    moment: offset, total rows, update sequence, and the warning and
    bookmark, which are empty when the driver does not implement them. *)
Theorem Metadata_not_ready_or_reported (r : rows.t D) :
  ((forall i, rows.iter_ r = Some i ->
      state i <> stateEOQ /\ state i <> stateClosed) ->
   rows.Metadata r = Returns (None, Some rows.notReady, r)) /\
  (forall i ri slot e slot' ri',
     rows.iter_ r = Some i ->
     state i = stateEOQ \/ state i = stateClosed ->
     rowsIterator.Next ri slot = (Some e, slot', ri') ->
     e = io_EOF \/ e = driver_EOQ ->
     feed i = ri' \/ feed i = (rowsIterator.Close ri').2 ->
     rows.Metadata r
     = Returns (Some (reported (rowsIterator.Rows ri')), None, r)).
Proof.
  split.
  - intros Hstate. unfold rows.Metadata.
    destruct (rows.iter_ r) as [i|]; [|reflexivity].
    destruct (Hstate i eq_refl) as [H1 H2].
    rewrite !bool_decide_eq_false_2 by done. reflexivity.
  - intros i ri slot e slot' ri' Hi Hstate HNext He Hfeed.
    unfold rows.Metadata. rewrite Hi.
    assert (negb (bool_decide (state i = stateEOQ))
            && negb (bool_decide (state i = stateClosed)) = false) as ->.
    { destruct Hstate as [-> | ->]; reflexivity. }
    assert (rowsIterator.ResultMetadata (feed i)
            = Some (reported (rowsIterator.Rows ri'))) as ->; [|reflexivity].
    assert (rowsIterator.ResultMetadata ri'
            = Some (reported (rowsIterator.Rows ri'))) as Hmd.
    { unfold rowsIterator.Next in HNext.
      destruct (driver.Next (rowsIterator.Rows ri) slot) as [[e0 s0] d].
      destruct He as [-> | ->];
        destruct e0 as [[| | |]|]; inversion HNext; subst; reflexivity. }
    destruct Hfeed as [-> | ->]; [exact Hmd|].
    unfold rowsIterator.Close.
    destruct (driver.Close (rowsIterator.Rows ri')) as [ce d]. exact Hmd.
Qed.

(** With the iterator core's [Next]: when the driver signals end of data
    or end of query on an advance, the advance returns false and
    [Metadata] then returns what the driver reported. *)
Lemma Metadata_after_last_Next (r : rows.t D) i e slot d :
  rows.iter_ r = Some i ->
  lasterr i = None -> state i <> stateClosed ->
  driver.Next (rowsIterator.Rows (feed i)) (curVal i) = (Some e, slot, d) ->
  e = io_EOF \/ e = driver_EOQ ->
  exists r',
    rows.Next r = Returns (false, r') /\
    rows.Metadata r' = Returns (Some (reported d), None, r').
Proof.
  intros Hi Herr Hstate HNext He.
  unfold rows.Next, rows.deref. rewrite Hi. simpl.
  unfold iter_Next. rewrite Herr.
  destruct (decide (state i = stateClosed)); [contradiction|].
  simpl. unfold rowsIterator.Next. rewrite HNext.
  destruct He as [-> | ->]; simpl.
  - unfold shutdown. simpl. unfold rowsIterator.Close. simpl.
    destruct (driver.Close d) as [ce d']. simpl.
    eexists. split; reflexivity.
  - eexists. split; reflexivity.
Qed.

End RowsFacts.

Section ScanFacts.
Context {D : Type} `{!driver.Rows D} {T : Type}.
Variable json_Decode : string -> T -> goerr * T * string.
Variable json_Unmarshal : string -> T -> goerr * T.
Context {F : Type} `{!iterator F legacy.Row}.

Lemma ScanDoc_cases (r : rows.t D) (dest : T) row i :
  rows.ready r = Returns (row, i) ->
  (forall e, rows.err r = Some e ->
     rows.ScanDoc json_Decode r dest = Returns (Some e, dest, r)) /\
  (forall e, rows.err r = None -> driver.Error row = Some e ->
     rows.ScanDoc json_Decode r dest
     = Returns (Some e, dest, rows.mk (Some i) None)) /\
  (rows.err r = None -> driver.Error row = None -> driver.Doc row = None ->
     rows.ScanDoc json_Decode r dest
     = Returns (Some rows.docIsNil, dest, rows.mk (Some i) None)) /\
  (forall reader e d rest,
     rows.err r = None -> driver.Error row = None ->
     driver.Doc row = Some reader -> json_Decode reader dest = (e, d, rest) ->
     rows.ScanDoc json_Decode r dest
     = Returns (e, d,
                rows.withRow r i
                  {| driver.ID := driver.ID row; driver.Key := driver.Key row;
                     driver.Value := driver.Value row;
                     driver.Doc := Some rest;
                     driver.Error := driver.Error row |})).
Proof.
  intros Hready. unfold rows.ScanDoc. repeat split.
  - intros e ->. reflexivity.
  - intros e -> He. rewrite Hready. simpl. by rewrite He.
  - intros -> He Hd. rewrite Hready. simpl. by rewrite He, Hd.
  - intros reader e d rest -> He Hd Hdec. rewrite Hready. simpl.
    by rewrite He, Hd, Hdec.
Qed.

Lemma legacy_ScanDoc_cases (r : legacy.rows.t F) (dest : T) row i :
  legacy.rows.ready r = Returns (row, i) ->
  (forall e, legacy.rows.err r = Some e ->
     legacy.rows.ScanDoc json_Decode json_Unmarshal r dest
     = Returns (Some e, dest, r)) /\
  (forall e, legacy.rows.err r = None -> legacy.Error row = Some e ->
     legacy.rows.ScanDoc json_Decode json_Unmarshal r dest
     = Returns (Some e, dest, legacy.rows.mk (Some i) None)) /\
  (legacy.rows.err r = None -> legacy.Error row = None ->
   legacy.DocReader row = None -> legacy.Doc row = None ->
     legacy.rows.ScanDoc json_Decode json_Unmarshal r dest
     = Returns (Some legacy.rows.docIsNil, dest, legacy.rows.mk (Some i) None)) /\
  (forall reader e d rest,
     legacy.rows.err r = None -> legacy.Error row = None ->
     legacy.DocReader row = Some reader ->
     json_Decode reader dest = (e, d, rest) ->
     legacy.rows.ScanDoc json_Decode json_Unmarshal r dest
     = Returns (e, d,
                legacy.rows.withRow r i
                  {| legacy.ID := legacy.ID row; legacy.Key := legacy.Key row;
                     legacy.Value := legacy.Value row;
                     legacy.ValueReader := legacy.ValueReader row;
                     legacy.Doc := legacy.Doc row;
                     legacy.DocReader := Some rest;
                     legacy.Error := legacy.Error row |})) /\
  (forall doc e d,
     legacy.rows.err r = None -> legacy.Error row = None ->
     legacy.DocReader row = None -> legacy.Doc row = Some doc ->
     json_Unmarshal doc dest = (e, d) ->
     legacy.rows.ScanDoc json_Decode json_Unmarshal r dest
     = Returns (e, d, legacy.rows.mk (Some i) None)).
Proof.
  intros Hready. unfold legacy.rows.ScanDoc. repeat split.
  - intros e ->. reflexivity.
  - intros e -> He. rewrite Hready. simpl. by rewrite He.
  - intros -> He Hr Hd. rewrite Hready. simpl. by rewrite He, Hr, Hd.
  - intros reader e d rest -> He Hr Hdec. rewrite Hready. simpl.
    by rewrite He, Hr, Hdec.
  - intros doc e d -> He Hr Hd Hdec. rewrite Hready. simpl.
    by rewrite He, Hr, Hd, Hdec.
Qed.

(** C8 (amended). [ScanDoc] first returns the locally recorded error, or
    the current row's own error, when there is one.  Otherwise it fails
    with the 400 error "kivik: doc is nil; does the query include docs?"
    whenever the current row carries no document, and decodes the
    document into the destination when the row carries one.  This holds
    of both revisions of [ScanDoc]; in the earlier one the document is
    the reader [DocReader] if set, the bytes [Doc] otherwise. *)
Theorem ScanDoc_no_document_unless_error (dest : T) :
  (forall (r : rows.t D) row i,
     rows.ready r = Returns (row, i) ->
     (forall e, rows.err r = Some e ->
        rows.ScanDoc json_Decode r dest = Returns (Some e, dest, r)) /\
     (forall e, rows.err r = None -> driver.Error row = Some e ->
        rows.ScanDoc json_Decode r dest
        = Returns (Some e, dest, rows.mk (Some i) None)) /\
     (rows.err r = None -> driver.Error row = None -> driver.Doc row = None ->
        rows.ScanDoc json_Decode r dest
        = Returns (Some (kivik_Error 400
                           "kivik: doc is nil; does the query include docs?"
                           None),
                   dest, rows.mk (Some i) None)) /\
     (forall reader e d rest,
        rows.err r = None -> driver.Error row = None ->
        driver.Doc row = Some reader -> json_Decode reader dest = (e, d, rest) ->
        exists r', rows.ScanDoc json_Decode r dest = Returns (e, d, r'))) /\
  (forall (r : legacy.rows.t F) row i,
     legacy.rows.ready r = Returns (row, i) ->
     (forall e, legacy.rows.err r = Some e ->
        legacy.rows.ScanDoc json_Decode json_Unmarshal r dest
        = Returns (Some e, dest, r)) /\
     (forall e, legacy.rows.err r = None -> legacy.Error row = Some e ->
        legacy.rows.ScanDoc json_Decode json_Unmarshal r dest
        = Returns (Some e, dest, legacy.rows.mk (Some i) None)) /\
     (legacy.rows.err r = None -> legacy.Error row = None ->
      legacy.DocReader row = None -> legacy.Doc row = None ->
        legacy.rows.ScanDoc json_Decode json_Unmarshal r dest
        = Returns (Some (kivik_Error 400
                           "kivik: doc is nil; does the query include docs?"
                           None),
                   dest, legacy.rows.mk (Some i) None)) /\
     (forall reader e d rest,
        legacy.rows.err r = None -> legacy.Error row = None ->
        legacy.DocReader row = Some reader ->
        json_Decode reader dest = (e, d, rest) ->
        exists r',
          legacy.rows.ScanDoc json_Decode json_Unmarshal r dest
          = Returns (e, d, r')) /\
     (forall doc e d,
        legacy.rows.err r = None -> legacy.Error row = None ->
        legacy.DocReader row = None -> legacy.Doc row = Some doc ->
        json_Unmarshal doc dest = (e, d) ->
        exists r',
          legacy.rows.ScanDoc json_Decode json_Unmarshal r dest
          = Returns (e, d, r'))).
Proof.
  split.
  - intros r row i Hready.
    destruct (ScanDoc_cases r dest row i Hready) as (H1 & H2 & H3 & H4).
    repeat split; [exact H1 | exact H2 | exact H3 |].
    intros reader e d rest He Hr Hd Hdec. eexists.
    exact (H4 reader e d rest He Hr Hd Hdec).
  - intros r row i Hready.
    destruct (legacy_ScanDoc_cases r dest row i Hready)
      as (H1 & H2 & H3 & H4 & H5).
    repeat split; [exact H1 | exact H2 | exact H3 | |].
    + intros reader e d rest He Hr Hd Hdec. eexists.
      exact (H4 reader e d rest He Hr Hd Hdec).
    + intros doc e d He Hr Hd Hdoc Hdec. eexists.
      exact (H5 doc e d He Hr Hd Hdoc Hdec).
Qed.

(** C9 (amended). An errored result set ([errRS], in both revisions)
    returns false from [Next] and [NextResultSet] and its error from
    [Err], [Close], [Metadata] or [Finish], [ScanValue], [ScanDoc] and
    [ScanKey].  On [rows] with a locally recorded error, [Err] and the
    three scan methods return that error at once, leaving the
    destination, the iterator and the feed as they were, a nil iterator
    included.  On [rows] whose iterator has recorded an error, [Next]
    and [NextResultSet] return false and, when no local error is
    recorded, [Err] returns the iterator's error. *)
Theorem errored_result_set_returns_its_error (dest : T) :
  (forall e : errRS.t,
     errRS.Next e = Returns (false, e) /\
     errRS.NextResultSet e = Returns (false, e) /\
     errRS.Err e = Returns (errRS.err e, e) /\
     errRS.Close e = Returns (errRS.err e, e) /\
     errRS.Metadata e = Returns (None, errRS.err e, e) /\
     errRS.ScanValue e dest = Returns (errRS.err e, dest, e) /\
     errRS.ScanDoc e dest = Returns (errRS.err e, dest, e) /\
     errRS.ScanKey e dest = Returns (errRS.err e, dest, e)) /\
  (forall e : legacy.errRS.t,
     legacy.errRS.Next e = Returns (false, e) /\
     legacy.errRS.Err e = Returns (legacy.errRS.err e, e) /\
     legacy.errRS.Close e = Returns (legacy.errRS.err e, e) /\
     (exists md, legacy.errRS.Finish e = Returns (md, legacy.errRS.err e, e)) /\
     legacy.errRS.ScanValue e dest = Returns (legacy.errRS.err e, dest, e) /\
     legacy.errRS.ScanDoc e dest = Returns (legacy.errRS.err e, dest, e) /\
     legacy.errRS.ScanKey e dest = Returns (legacy.errRS.err e, dest, e)) /\
  (forall (r : rows.t D) e,
     rows.err r = Some e ->
     rows.Err r = Returns (Some e, r) /\
     rows.ScanValue json_Decode r dest = Returns (Some e, dest, r) /\
     rows.ScanDoc json_Decode r dest = Returns (Some e, dest, r) /\
     rows.ScanKey json_Unmarshal r dest = Returns (Some e, dest, r)) /\
  (forall (r : legacy.rows.t F) e,
     legacy.rows.err r = Some e ->
     legacy.rows.Err r = Returns (Some e, r) /\
     legacy.rows.ScanValue json_Decode json_Unmarshal r dest
     = Returns (Some e, dest, r) /\
     legacy.rows.ScanDoc json_Decode json_Unmarshal r dest
     = Returns (Some e, dest, r) /\
     legacy.rows.ScanKey json_Unmarshal r dest = Returns (Some e, dest, r)) /\
  (forall (r : rows.t D) i e,
     rows.iter_ r = Some i -> lasterr i = Some e ->
     rows.Next r = Returns (false, r) /\
     rows.NextResultSet r = Returns (false, r) /\
     (rows.err r = None -> rows.Err r = Returns (Some e, r))).
Proof.
  split; [|split; [|split; [|split]]].
  - intros e. by repeat split.
  - intros e. repeat split. by eexists.
  - intros r e He.
    unfold rows.Err, rows.ScanValue, rows.ScanDoc, rows.ScanKey.
    rewrite He. by repeat split.
  - intros r e He.
    unfold legacy.rows.Err, legacy.rows.ScanValue, legacy.rows.ScanDoc,
      legacy.rows.ScanKey.
    rewrite He. by repeat split.
  - intros [it le] i e Hi Hle. simpl in Hi. subst it.
    unfold rows.Next, rows.NextResultSet, rows.Err, rows.deref, iter_Next,
      iter_Err.
    simpl. rewrite Hle. repeat split. by intros ->.
Qed.

End ScanFacts.

Section RowsExamples.
Import fixture.

Lemma NextResultSet_transitions_witness :
  (exists r',
     rows.NextResultSet onFailedRow = Returns (false, r') /\
     rows.Err r'
     = Returns (Some (errors_New "must call NextResultSet before Next"), r')) /\
  (exists i',
     rows.NextResultSet (rows.newRows five)
     = Returns (true, rows.mk (Some i') None) /\
     state i' = stateResultSetReady).
Proof.
  split.
  - destruct (NextResultSet_transitions onFailedRow _ eq_refl) as [H _].
    destruct (H eq_refl) as (i' & Heq & _ & Hle & _).
    exists (rows.mk (Some i') None). split; [exact Heq|].
    unfold rows.Err, rows.deref, iter_Err. simpl. by rewrite (Hle eq_refl).
  - destruct (NextResultSet_transitions (rows.newRows five) _ eq_refl)
      as (_ & _ & H).
    destruct H as (i' & Heq & Hs & _); [discriminate | discriminate | reflexivity |].
    exists i'. by split.
Defined.

Lemma Metadata_not_ready_or_reported_witness :
  rows.Metadata (rows.newRows five)
  = Returns (None, Some rows.notReady, rows.newRows five) /\
  (rows.Next (rows.newRows firstQuery) ≫= fun '(_, r) => rows.Next r)
  = Returns (false, atEndOfQuery) /\
  rows.Metadata atEndOfQuery
  = Returns (Some {| Offset := 7; TotalRows := 42; UpdateSeq := "";
                     Warning := "no matching index"; Bookmark := "" |},
             None, atEndOfQuery).
Proof.
  split; [|split].
  - apply (proj1 (Metadata_not_ready_or_reported (rows.newRows five))).
    intros i Hi. injection Hi as <-. split; discriminate.
  - vm_compute. reflexivity.
  - exact (proj2 (Metadata_not_ready_or_reported atEndOfQuery) _
             (rowsIterator.mk firstQueryDrained None) (docRow "a" "1")
             driver_EOQ (docRow "a" "1")
             (rowsIterator.mk firstQueryDrained
                (Some (reported firstQueryDrained)))
             eq_refl (or_introl eq_refl) eq_refl (or_intror eq_refl)
             (or_introl eq_refl)).
Defined.

Lemma ScanDoc_no_document_unless_error_witness :
  rows.ScanDoc raw_Decode onBareRow ""
  = Returns (Some (kivik_Error 400
                     "kivik: doc is nil; does the query include docs?" None),
             "", onBareRow) /\
  rows.ScanDoc raw_Decode onFailedRow ""
  = Returns (Some (errors_New "not_found"), "", onFailedRow).
Proof.
  split.
  - destruct (proj1 (ScanDoc_no_document_unless_error
                       (F := list legacy.Row)
                       raw_Decode raw_Unmarshal "")
                    onBareRow _ _ eq_refl) as (_ & _ & H & _).
    exact (H eq_refl eq_refl eq_refl).
  - destruct (proj1 (ScanDoc_no_document_unless_error
                       (F := list legacy.Row)
                       raw_Decode raw_Unmarshal "")
                    onFailedRow _ _ eq_refl) as (_ & H & _).
    exact (H _ eq_refl eq_refl).
Defined.

(** C8, as stated, fails: after one advance the current row carries no
    document, and [ScanDoc] returns the row's own error, which is not the
    "doc is nil" error. *)
Lemma ScanDoc_no_document_counterexample :
  exists r row i,
    rows.Next (rows.newRows badThenGood) = Returns (true, r) /\
    rows.ready r = Returns (row, i) /\
    driver.Doc row = None /\
    rows.ScanDoc raw_Decode r "" = Returns (Some (errors_New "not_found"), "", r) /\
    errors_New "not_found" <> rows.docIsNil.
Proof.
  eexists _, _, _. split; [vm_compute; reflexivity|].
  split; [vm_compute; reflexivity|].
  split; [reflexivity|]. split; [vm_compute; reflexivity|]. discriminate.
Qed.

Lemma errored_result_set_returns_its_error_witness :
  rows.Err locallyFailed = Returns (Some (errors_New "local"), locallyFailed) /\
  rows.ScanValue raw_Decode locallyFailed ""
  = Returns (Some (errors_New "local"), "", locallyFailed) /\
  rows.ScanDoc raw_Decode locallyFailed ""
  = Returns (Some (errors_New "local"), "", locallyFailed) /\
  rows.ScanKey raw_Unmarshal locallyFailed ""
  = Returns (Some (errors_New "local"), "", locallyFailed).
Proof.
  destruct (errored_result_set_returns_its_error
              (F := list legacy.Row)
              raw_Decode raw_Unmarshal "") as (_ & _ & H & _).
  exact (H locallyFailed _ eq_refl).
Defined.

(** C9, as stated, fails on [rows]: after the feed has failed, the
    error is recorded and [Err] returns it, and [Metadata] returns no
    error at all. *)
Lemma errored_rows_Metadata_counterexample :
  exists r i,
    rows.Next (rows.newRows broken) = Returns (false, r) /\
    rows.iter_ r = Some i /\
    lasterr i = Some (errors_New "connection reset") /\
    rows.Err r = Returns (Some (errors_New "connection reset"), r) /\
    rows.Metadata r = Returns (None, None, r).
Proof.
  eexists _, _. split; [vm_compute; reflexivity|].
  split; [reflexivity|]. repeat split.
Qed.

End RowsExamples.

(** ** More on the bulk-scan engine *)

Section BulkScanShape.
Context {R T : Type} `{!ResultSet R T}.
Variable zero : T.
Variable scan : R -> T -> run (goerr * T * R).

(** X1. A destination that is not a pointer, is a nil pointer, or points
    to something that is neither a slice nor an array is refused with the
    error of its kind, for any fuel: the destination is returned as it
    was, the result set receives the [Err] check and the deferred [Close]
    only, and the close error is dropped. *)
Theorem scanAll_refuses_bad_destination fuel r log (dest : Dest T) r1 closeErr r2 :
  dest = NotPointer \/ dest = NilPointer \/ dest = OtherPtr ->
  Err r = Returns (None, r1) ->
  Close r1 = Returns (closeErr, r2) ->
  scanAll zero (logged_scan scan) fuel (r, log) dest
  = Returns (Some (errors_New
                     match dest with
                     | NotPointer => "must pass a pointer to ScanAllDocs"
                     | NilPointer => "nil pointer passed to ScanAllDocs"
                     | _ => "dest must be a pointer to a slice or array"
                     end),
             dest, (r2, log ++ [CallErr; CallClose])).
Proof.
  intros Hdest HErr HClose. unfold scanAll, scanAll_body.
  change (Err (r, log)) with (logging CallErr Err (r, log)).
  rewrite logging_eq, HErr.
  destruct Hdest as [-> | [-> | ->]]; simpl;
    change (Close (r1, log ++ [CallErr]))
      with (logging CallClose Close (r1, log ++ [CallErr]));
    rewrite logging_eq, HClose; simpl; by rewrite <- app_assoc.
Qed.

(** X2. On a result set whose [Err] already reports an error, [scanAll]
    returns that error whatever the destination and the fuel: the
    destination is untouched, no row is advanced or scanned, the result
    set is closed, and the close error is dropped. *)
Theorem scanAll_on_failed_result_set fuel r log (dest : Dest T) e r1 closeErr r2 :
  Err r = Returns (Some e, r1) ->
  Close r1 = Returns (closeErr, r2) ->
  scanAll zero (logged_scan scan) fuel (r, log) dest
  = Returns (Some e, dest, (r2, log ++ [CallErr; CallClose])).
Proof.
  intros HErr HClose. unfold scanAll, scanAll_body.
  change (Err (r, log)) with (logging CallErr Err (r, log)).
  rewrite logging_eq, HErr. simpl.
  change (Close (r1, log ++ [CallErr]))
    with (logging CallClose Close (r1, log ++ [CallErr])).
  rewrite logging_eq, HClose. simpl. by rewrite <- app_assoc.
Qed.

(** X3. Into a pointer to a slice, [scanAll] drains the result set: it
    appends one element per row, in order, after the elements the slice
    had; the result set receives [Err], one [Next] and one scan per row,
    the [Next] that finds no more rows, and the deferred [Close]; the
    error returned is the close error, whatever the scans reported. *)
Theorem scanAll_slice_appends_every_row (s : list T) r log r0 items rK rK1
    closeErr rF :
  Err r = Returns (None, r0) ->
  rounds zero scan (length items) r0 = Some (items, rK) ->
  Next rK = Returns (false, rK1) ->
  Close rK1 = Returns (closeErr, rF) ->
  forall fuel, length items < fuel ->
    scanAll zero (logged_scan scan) fuel (r, log) (SlicePtr s)
    = Returns (closeErr, SlicePtr (s ++ items.*2),
               (rF, log ++ [CallErr]
                        ++ mjoin (replicate (length items) [CallNext; CallScan])
                        ++ [CallNext; CallClose])).
Proof.
  intros HErr Hrounds HNext HClose fuel Hfuel.
  apply (scanAll_slice_drained zero (logged_scan scan) s (r, log)
           (r0, log ++ [CallErr]) items
           (rK, (log ++ [CallErr])
                  ++ mjoin (replicate (length items) [CallNext; CallScan]))
           (rK1, ((log ++ [CallErr])
                    ++ mjoin (replicate (length items) [CallNext; CallScan]))
                   ++ [CallNext])).
  - change (Err (r, log)) with (logging CallErr Err (r, log)).
    by rewrite logging_eq, HErr.
  - by apply rounds_logged.
  - change (Next (rK, ?l)) with (logging CallNext Next (rK, l)).
    by rewrite logging_eq, HNext.
  - change (Close (rK1, ?l)) with (logging CallClose Close (rK1, l)).
    rewrite logging_eq, HClose. simpl. by rewrite <- !app_assoc.
  - done.
Qed.

(** Filling part of an array: [k] rows overwrite the elements from [i]
    on, and the elements after them stay. *)
Lemma scanAll_loop_partial k : forall limit i r direct err items rK rK1,
  0 < limit -> i + k <= limit -> length direct = limit ->
  rounds zero scan k r = Some (items, rK) ->
  Next rK = Returns (false, rK1) ->
  forall fuel, k < fuel ->
  exists err',
    scanAll_loop zero scan fuel limit i r direct err
    = Returns (rK1, take i direct ++ items.*2 ++ drop (i + k) direct, err').
Proof.
  induction k as [|k IH]; intros limit i r direct err items rK rK1
    Hpos Hik Hlen Hrounds Hnext fuel Hfuel;
    (destruct fuel as [|fuel]; [lia|]); rewrite scanAll_loop_S;
    cbn [rounds] in Hrounds.
  - injection Hrounds as <- <-. rewrite Hnext. simpl.
    exists err. by rewrite Nat.add_0_r, take_drop.
  - destruct (Next r) as [[[|] r1]| |] eqn:HN; try discriminate.
    destruct (scan r1 zero) as [[[e v] r2]| |] eqn:HS; try discriminate.
    destruct (rounds zero scan k r2) as [[items' r3]|] eqn:HR; try discriminate.
    injection Hrounds as <- <-. simpl.
    assert ((0 <? limit) = true) as -> by (apply Nat.ltb_lt; lia).
    assert ((limit <=? i) = false) as -> by (apply Nat.leb_gt; lia).
    simpl.
    destruct (IH limit (S i) r2 (<[i:=v]> direct) e items' r3 rK1)
      with (fuel := fuel) as [err' Heq];
      [lia | lia | by rewrite length_insert | done | done | lia |].
    exists err'. rewrite Heq. do 3 f_equal.
    rewrite (take_S_r _ _ v) by (apply list_lookup_insert_eq; lia).
    rewrite take_insert_ge by lia.
    rewrite drop_insert_lt by lia.
    replace (i + S k) with (S i + k) by lia.
    by rewrite <- app_assoc.
Qed.

(** X4. Into an array of length K from a result set with k <= K rows,
    [scanAll] overwrites the first k elements with what the scans
    produced and leaves the other K - k elements as they were; it returns
    the close error. *)
Theorem scanAll_array_partly_filled (a : list T) k r r0 items rK rK1 closeErr rF :
  0 < length a -> k <= length a ->
  Err r = Returns (None, r0) ->
  rounds zero scan k r0 = Some (items, rK) ->
  Next rK = Returns (false, rK1) ->
  Close rK1 = Returns (closeErr, rF) ->
  forall fuel, k < fuel ->
    scanAll zero scan fuel r (ArrayPtr a)
    = Returns (closeErr, ArrayPtr (items.*2 ++ drop k a), rF).
Proof.
  intros Hpos Hk HErr Hrounds HNext HClose fuel Hfuel.
  unfold scanAll, scanAll_body. rewrite HErr. simpl.
  destruct (length a =? 0) eqn:E; [apply Nat.eqb_eq in E; lia|].
  destruct (scanAll_loop_partial k (length a) 0 r0 a None items rK rK1)
    with (fuel := fuel) as [err' Hloop]; [lia | lia | done | done | done | lia |].
  rewrite Hloop. simpl. rewrite HClose. reflexivity.
Qed.

(** The loop keeps the length of an array and only appends to a slice. *)
Lemma scanAll_loop_shape fuel : forall limit i r direct err r' direct' err',
  scanAll_loop zero scan fuel limit i r direct err = Returns (r', direct', err') ->
  (0 < limit -> length direct' = length direct) /\
  (limit = 0 -> exists more, direct' = direct ++ more).
Proof.
  induction fuel as [|fuel IH];
    intros limit i r direct err r' direct' err' Hloop; [discriminate|].
  rewrite scanAll_loop_S in Hloop.
  destruct (Next r) as [[[|] r1]| |]; try discriminate; simpl in Hloop.
  - destruct ((0 <? limit) && (limit <=? i)) eqn:Hfull.
    + injection Hloop as <- <- <-. split; [done|].
      intros _. exists []. by rewrite app_nil_r.
    + destruct (scan r1 zero) as [[[e v] r2]| |]; try discriminate.
      apply IH in Hloop as [Harr Hsl]. split.
      * intros Hpos. rewrite (Harr Hpos).
        assert ((0 <? limit) = true) as -> by (apply Nat.ltb_lt; lia).
        by rewrite length_insert.
      * intros ->. destruct (Hsl eq_refl) as [more ->]. simpl.
        exists (v :: more). by rewrite <- app_assoc.
  - injection Hloop as <- <- <-. split; [done|].
    intros _. exists []. by rewrite app_nil_r.
Qed.

(** X5. Whenever [scanAll] returns, the destination is of the kind it
    was: an array has kept its length, a slice has kept its elements and
    may have more after them, and any other destination is unchanged. *)
Theorem scanAll_keeps_destination_shape fuel r (dest : Dest T) e dest' r' :
  scanAll zero scan fuel r dest = Returns (e, dest', r') ->
  match dest with
  | ArrayPtr a => exists a', dest' = ArrayPtr a' /\ length a' = length a
  | SlicePtr s => exists more, dest' = SlicePtr (s ++ more)
  | _ => dest' = dest
  end.
Proof.
  unfold scanAll, scanAll_body. intros Hrun.
  destruct (Err r) as [[e0 r0]| |]; try discriminate. simpl in Hrun.
  assert (forall (d : Dest T) (e1 : goerr),
    (Returns (e1, d, r0) ≫= fun '(err, dest, r) =>
       Close r ≫= fun '(closeErr, r) =>
         Returns (match err with Some e => Some e | None => closeErr end, dest, r))
    = Returns (e, dest', r') -> dest' = d) as Hret.
  { intros d e1 Heq. simpl in Heq.
    destruct (Close r0) as [[ce r1]| |]; try discriminate.
    simpl in Heq. by injection Heq as _ <- _. }
  destruct e0 as [e0|].
  { apply Hret in Hrun. subst dest'.
    destruct dest as [| |a|s|]; try reflexivity.
    - by exists a.
    - exists []. by rewrite app_nil_r. }
  destruct dest as [| |a|s|]; try (by apply Hret in Hrun).
  - destruct (length a =? 0) eqn:E.
    { apply Hret in Hrun. subst dest'. by exists a. }
    apply Nat.eqb_neq in E.
    destruct (scanAll_loop zero scan fuel (length a) 0 r0 a None)
      as [[[r1 d1] e1]| |] eqn:HL; try discriminate.
    simpl in Hrun. destruct (Close r1) as [[ce r2]| |]; try discriminate.
    simpl in Hrun. injection Hrun as _ <- _.
    apply scanAll_loop_shape in HL as [Harr _].
    exists d1. split; [done|]. apply Harr. lia.
  - destruct (scanAll_loop zero scan fuel 0 0 r0 s None)
      as [[[r1 d1] e1]| |] eqn:HL; try discriminate.
    simpl in Hrun. destruct (Close r1) as [[ce r2]| |]; try discriminate.
    simpl in Hrun. injection Hrun as _ <- _.
    apply scanAll_loop_shape in HL as [_ Hsl].
    destruct (Hsl eq_refl) as [more ->]. by exists more.
Qed.

End BulkScanShape.

Section BulkScanProtocol.
Context {R T : Type} `{!ResultSet R T}.
Variable zero : T.
Variable scan : R -> T -> run (goerr * T * R).

Lemma scanAll_loop_protocol fuel :
  forall limit i r log direct err r' log' direct' err',
  scanAll_loop zero (logged_scan scan) fuel limit i (r, log) direct err
  = Returns ((r', log'), direct', err') ->
  exists n,
    log' = log ++ mjoin (replicate n [CallNext; CallScan]) ++ [CallNext] /\
    (0 < limit -> i <= limit -> i + n <= limit).
Proof.
  induction fuel as [|fuel IH];
    intros limit i r log direct err r' log' direct' err' Hloop;
    [discriminate|].
  rewrite scanAll_loop_S in Hloop.
  change (Next (r, log)) with (logging CallNext Next (r, log)) in Hloop.
  rewrite logging_eq in Hloop.
  destruct (Next r) as [[[|] r1]| |]; try discriminate; simpl in Hloop.
  - destruct ((0 <? limit) && (limit <=? i)) eqn:Hfull.
    + injection Hloop as <- <- <- <-. exists 0. split; [done|]. lia.
    + rewrite logged_scan_eq in Hloop.
      destruct (scan r1 zero) as [[[e v] r2]| |]; try discriminate.
      apply IH in Hloop as (n & -> & Hn).
      exists (S n). split.
      * simpl. by rewrite <- !app_assoc.
      * intros Hpos Hi.
        apply andb_false_iff in Hfull as [Hf|Hf];
          [apply Nat.ltb_ge in Hf; lia|].
        apply Nat.leb_gt in Hf. specialize (Hn Hpos). lia.
  - injection Hloop as <- <- <- <-. exists 0. split; [done|]. lia.
Qed.

(** X6. The calls [scanAll] makes on a result set, whenever it returns:
    first [Err]; then, unless that reported an error or the destination
    was refused, some number of rounds of [Next] followed by one scan,
    and one last [Next] that no scan follows; last of all [Close].  For an
    array the number of scans is at most its length. *)
Theorem scanAll_call_protocol fuel r log (dest : Dest T) e dest' r' log' :
  scanAll zero (logged_scan scan) fuel (r, log) dest
  = Returns (e, dest', (r', log')) ->
  log' = log ++ [CallErr; CallClose] \/
  exists n,
    log' = log ++ [CallErr] ++ mjoin (replicate n [CallNext; CallScan])
               ++ [CallNext; CallClose] /\
    forall a, dest = ArrayPtr a -> n <= length a.
Proof.
  unfold scanAll, scanAll_body. intros Hrun.
  change (Err (r, log)) with (logging CallErr Err (r, log)) in Hrun.
  rewrite logging_eq in Hrun.
  destruct (Err r) as [[e0 r0]| |]; try discriminate. simpl in Hrun.
  assert (forall (d : Dest T) (e1 : goerr),
    (Returns (e1, d, (r0, log ++ [CallErr])) ≫= fun '(err, dest, r) =>
       Close r ≫= fun '(closeErr, r) =>
         Returns (match err with Some e => Some e | None => closeErr end, dest, r))
    = Returns (e, dest', (r', log')) -> log' = log ++ [CallErr; CallClose])
    as Hret.
  { intros d e1 Heq. simpl in Heq.
    change (Close (r0, log ++ [CallErr]))
      with (logging CallClose Close (r0, log ++ [CallErr])) in Heq.
    rewrite logging_eq in Heq.
    destruct (Close r0) as [[ce r1]| |]; try discriminate.
    simpl in Heq. injection Heq as _ _ _ <-. by rewrite <- app_assoc. }
  assert (forall limit (a : list T) (x : list T -> Dest T),
    (0 < limit -> limit = length a) ->
    ((scanAll_loop zero (logged_scan scan) fuel limit 0 (r0, log ++ [CallErr]) a None
        ≫= fun '(r, direct, _) => Returns (None, x direct, r))
       ≫= fun '(err, dest, r) =>
         Close r ≫= fun '(closeErr, r) =>
           Returns (match err with Some e => Some e | None => closeErr end, dest, r))
    = Returns (e, dest', (r', log')) ->
    exists n,
      log' = log ++ [CallErr] ++ mjoin (replicate n [CallNext; CallScan])
                 ++ [CallNext; CallClose] /\
      (0 < limit -> n <= length a)) as Hloop.
  { intros limit a x Hlim Heq.
    destruct (scanAll_loop _ _ _ _ _ _ _ _) as [[[[r1 log1] d1] e1]| |] eqn:HL;
      try discriminate.
    apply scanAll_loop_protocol in HL as (n & -> & Hn).
    simpl in Heq.
    change (Close (r1, ?l)) with (logging CallClose Close (r1, l)) in Heq.
    rewrite logging_eq in Heq.
    destruct (Close r1) as [[ce r2]| |]; try discriminate.
    simpl in Heq. injection Heq as _ _ _ <-.
    exists n. split; [by rewrite <- !app_assoc|].
    intros Hpos. specialize (Hn Hpos). rewrite <- (Hlim Hpos). lia. }
  destruct e0 as [e0|]; [left; by apply (Hret dest (Some e0))|].
  destruct dest as [| |a|s|]; try (left; by eapply Hret).
  - destruct (length a =? 0) eqn:E; [left; by eapply Hret|].
    apply Nat.eqb_neq in E. right.
    apply (Hloop (length a) a ArrayPtr) in Hrun as (n & Hlog & Hn); [|done].
    exists n. split; [done|]. intros a' Ha. injection Ha as <-. apply Hn. lia.
  - right. apply (Hloop 0 s SlicePtr) in Hrun as (n & Hlog & _); [|lia].
    exists n. split; [done|]. intros a' Ha. discriminate.
Qed.

End BulkScanProtocol.

(** ** More on the methods of [rows] *)

Lemma makeReady_not_Init {F Slot : Type} `{!iterator F Slot} (i : iter F Slot) :
  state (makeReady i) <> stateInit.
Proof.
  unfold makeReady. destruct (decide (state i = stateInit)); [|done].
  unfold iter_Close.
  destruct (decide (state (iter_Next i).2 = stateClosed)) as [Hc|Hc]; simpl.
  - rewrite Hc. discriminate.
  - destruct (feed_Close (feed (iter_Next i).2)). simpl. discriminate.
Qed.

Lemma makeReady_again {F Slot : Type} `{!iterator F Slot} (i : iter F Slot) slot :
  makeReady (mkIter (feed (makeReady i)) (state (makeReady i)) slot
               (lasterr (makeReady i)) (onCloseCalls (makeReady i)))
  = mkIter (feed (makeReady i)) (state (makeReady i)) slot
      (lasterr (makeReady i)) (onCloseCalls (makeReady i)).
Proof.
  unfold makeReady at 1. simpl.
  destruct (decide (state (makeReady i) = stateInit)) as [Hs|]; [|done].
  by apply makeReady_not_Init in Hs.
Qed.

Section ScanConsumption.
Context {D : Type} `{!driver.Rows D} {T : Type}.
Variable json_Decode : string -> T -> goerr * T * string.
Variable json_Unmarshal : string -> T -> goerr * T.

(** X7. [ScanValue] reads the row's value from its reader and leaves
    the reader where the decoder stopped: a second [ScanValue] on the same
    row decodes only what the first left unread.  The row's document and
    key are not touched: [ScanDoc] and [ScanKey] give afterwards what they
    would have given before. *)
Theorem ScanValue_consumes_the_value (r : rows.t D) (dest dest2 : T)
    row i reader e d rest :
  rows.err r = None ->
  rows.ready r = Returns (row, i) ->
  driver.Error row = None ->
  driver.Value row = Some reader ->
  json_Decode reader dest = (e, d, rest) ->
  exists r',
    rows.ScanValue json_Decode r dest = Returns (e, d, r') /\
    seen (rows.ScanValue json_Decode r' dest2)
    = Some (json_Decode rest dest2).1 /\
    seen (rows.ScanDoc json_Decode r' dest2)
    = seen (rows.ScanDoc json_Decode r dest2) /\
    seen (rows.ScanKey json_Unmarshal r' dest2)
    = seen (rows.ScanKey json_Unmarshal r dest2).
Proof.
  intros Herr Hready He Hv Hdec.
  destruct r as [[i0|] le]; simpl in Herr; subst le; [|discriminate].
  unfold rows.ready, rows.deref in Hready. simpl in Hready.
  injection Hready as <- <-.
  eexists. split.
  { unfold rows.ScanValue, rows.ready, rows.deref. simpl.
    rewrite He, Hv, Hdec. reflexivity. }
  unfold rows.ScanValue, rows.ScanDoc, rows.ScanKey, rows.ready, rows.deref,
    rows.withRow.
  simpl. rewrite !makeReady_again. simpl. rewrite He.
  split; [|split].
  - destruct (json_Decode rest dest2) as [[e2 d2] rest2]. reflexivity.
  - destruct (driver.Doc (curVal (makeReady i0))) as [doc|]; [|reflexivity].
    destruct (json_Decode doc dest2) as [[e2 d2] rest2]. reflexivity.
  - destruct (json_Unmarshal (driver.Key (curVal (makeReady i0))) dest2)
      as [e2 d2]. reflexivity.
Qed.

(** X8. [ScanKey] consumes nothing: called again on the result set it
    left, with the same destination, it returns the same error and the
    same decoded key, and leaves the result set as it is. *)
Theorem ScanKey_can_be_repeated (r : rows.t D) (dest : T) e d r' :
  rows.ScanKey json_Unmarshal r dest = Returns (e, d, r') ->
  rows.ScanKey json_Unmarshal r' dest = Returns (e, d, r').
Proof.
  unfold rows.ScanKey, rows.ready, rows.deref.
  destruct r as [it [le|]]; simpl.
  { intros Heq. injection Heq as <- <- <-. reflexivity. }
  destruct it as [i0|]; simpl; [|discriminate].
  assert (makeReady (makeReady i0) = makeReady i0) as Hidem.
  { unfold makeReady at 1.
    destruct (decide (state (makeReady i0) = stateInit)) as [Hs|]; [|done].
    by apply makeReady_not_Init in Hs. }
  destruct (driver.Error (curVal (makeReady i0))) as [re|] eqn:Hre.
  - intros Heq. injection Heq as <- <- <-. simpl. rewrite Hidem, Hre.
    reflexivity.
  - destruct (json_Unmarshal (driver.Key (curVal (makeReady i0))) dest)
      as [e2 d2] eqn:Hun.
    intros Heq. injection Heq as <- <- <-. simpl. rewrite Hidem, Hre, Hun.
    reflexivity.
Qed.

End ScanConsumption.

(** X9. A [NextResultSet] on a row that is ready is not forgiven: the
    result set it leaves answers false to every later [NextResultSet],
    [Err] keeps reporting an error (the "must call" one if none was
    recorded), and [Metadata] keeps answering "not ready". *)
Theorem NextResultSet_failure_is_sticky {D : Type} `{!driver.Rows D}
    (r : rows.t D) i :
  rows.iter_ r = Some i -> state i = stateRowReady -> rows.err r = None ->
  exists r',
    rows.NextResultSet r = Returns (false, r') /\
    rows.NextResultSet r' = Returns (false, r') /\
    rows.Metadata r' = Returns (None, Some rows.notReady, r') /\
    rows.Err r'
    = Returns (Some (default (errors_New "must call NextResultSet before Next")
                             (lasterr i)), r').
Proof.
  intros Hi Hs Herr. destruct r as [it le]. simpl in Hi, Herr. subst it le.
  unfold rows.NextResultSet, rows.Metadata, rows.Err, rows.deref, iter_Err.
  simpl. destruct (lasterr i) as [e|] eqn:Hle.
  - exists (rows.mk (Some i) None). simpl. rewrite Hle, Hs. by repeat split.
  - destruct (decide (state i = stateClosed)); [congruence|].
    destruct (decide (state i = stateRowReady)); [|contradiction].
    eexists. split; [reflexivity|]. simpl. rewrite Hs. by repeat split.
Qed.

(** ** The test feed *)

Lemma int64_range (z : Z) : (- 2 ^ 63 <= TestFeed.int64 z < 2 ^ 63)%Z.
Proof.
  unfold TestFeed.int64.
  pose proof (Z.mod_pos_bound (z + 2 ^ 63) (2 ^ 64)). lia.
Qed.

Lemma fetches_S k f slot :
  fetches (S k) f slot
  = (((TestFeed.Next f slot).1.1, (TestFeed.Next f slot).1.2)
       :: (fetches k (TestFeed.Next f slot).2 (TestFeed.Next f slot).1.2).1,
     (fetches k (TestFeed.Next f slot).2 (TestFeed.Next f slot).1.2).2).
Proof.
  cbn [fetches]. destruct (TestFeed.Next f slot) as [[e slot'] f'].
  cbn [fst snd]. by destruct (fetches k f' slot').
Qed.

Lemma TestFeed_Next_below (m i : Z) ce slot :
  (0 <= i < m)%Z -> (m < 2 ^ 63 - 1)%Z ->
  TestFeed.Next (TestFeed.mk m i ce) slot = (None, i, TestFeed.mk m (i + 1) ce).
Proof.
  intros Hi Hm. unfold TestFeed.Next. cbn [TestFeed.max TestFeed.i TestFeed.closeErr].
  rewrite int64_small by lia.
  by assert ((m <? i + 1)%Z = false) as -> by (apply Z.ltb_ge; lia).
Qed.

Lemma TestFeed_Next_at_max (m : Z) ce slot :
  (0 <= m < 2 ^ 63 - 1)%Z ->
  TestFeed.Next (TestFeed.mk m m ce) slot
  = (Some io_EOF, m, TestFeed.mk m (m + 1) ce).
Proof.
  intros Hm. unfold TestFeed.Next. cbn [TestFeed.max TestFeed.i TestFeed.closeErr].
  rewrite int64_small by lia.
  by assert ((m <? m + 1)%Z = true) as -> by (apply Z.ltb_lt; lia).
Qed.

(** X10. A test feed with [max] = m standing at i, 0 <= i <= m, hands out
    i, i + 1, ..., m - 1 without error, one per call, and on the next call
    signals [io.EOF]; that call too writes the slot, which then holds m,
    and leaves the feed standing at m + 1. *)
Theorem TestFeed_counts_up_to_max n : forall (m i : Z) (ce : goerr) (slot : Z),
  (0 <= i)%Z -> (m < 2 ^ 63 - 1)%Z -> m = (i + Z.of_nat n)%Z ->
  fetches (S n) (TestFeed.mk m i ce) slot
  = (((fun z => (None, z)) <$> seqZ i (m - i)) ++ [(Some io_EOF, m)],
     TestFeed.mk m (m + 1) ce).
Proof.
  induction n as [|n IH]; intros m i ce slot Hi Hm Heq; rewrite fetches_S.
  - assert (i = m) as -> by lia. rewrite TestFeed_Next_at_max by lia.
    cbn [fst snd fetches]. by rewrite Z.sub_diag.
  - rewrite TestFeed_Next_below by lia. cbn [fst snd].
    rewrite (IH m (i + 1)%Z ce i) by lia. cbn [fst snd].
    rewrite (seqZ_cons i (m - i)) by lia.
    replace (Z.succ i) with (i + 1)%Z by lia.
    replace (Z.pred (m - i)) with (m - (i + 1))%Z by lia.
    reflexivity.
Qed.

(** X11. A test feed with [max] = [MaxInt64] never signals the end of
    the data: its counter wraps around instead of exceeding [max], so
    every call returns nil. *)
Theorem TestFeed_max_int64_never_ends k : forall (i : Z) (ce : goerr) (slot : Z),
  Forall (fun p : goerr * Z => p.1 = None)
         (fetches k (TestFeed.mk MaxInt64 i ce) slot).1.
Proof.
  induction k as [|k IH]; intros i ce slot; [constructor|].
  rewrite fetches_S. cbn [fst snd].
  assert (TestFeed.Next (TestFeed.mk MaxInt64 i ce) slot
          = (None, i, TestFeed.mk MaxInt64 (TestFeed.int64 (i + 1)) ce)) as ->.
  { unfold TestFeed.Next. cbn [TestFeed.max TestFeed.i TestFeed.closeErr].
    assert ((MaxInt64 <? TestFeed.int64 (i + 1))%Z = false) as ->; [|done].
    apply Z.ltb_ge. pose proof (int64_range (i + 1)). unfold MaxInt64. lia. }
  cbn [fst snd]. constructor; [reflexivity | apply IH].
Qed.

(** ** The client *)

Lemma lower_spec c : Client.lower c = true <-> lowercase c.
Proof.
  unfold Client.lower, lowercase.
  rewrite andb_true_iff, !Nat.leb_le. reflexivity.
Qed.

Lemma inClass_spec c : Client.inClass c = true <-> nameChar c.
Proof.
  unfold Client.inClass, Client.digit, nameChar.
  rewrite !orb_true_iff, lower_spec, andb_true_iff, !Nat.leb_le,
    bool_decide_eq_true.
  tauto.
Qed.

Lemma star_spec s :
  Client.star s = true <-> Forall nameChar (String.list_ascii_of_string s).
Proof.
  induction s as [|c s IH]; simpl.
  - split; [constructor | done].
  - rewrite andb_true_iff, inClass_spec, IH, Forall_cons. reflexivity.
Qed.

Section ClientFacts.
Context {D : Type} `{!Client.driverClient D}.
Variable errors_Status : Z -> string -> error.
Variable StatusBadRequest : Z.

(** X12. [CreateDBContext] hands a name to the driver exactly when it is
    a lowercase letter followed by any number of lowercase letters,
    digits and the characters _ $ ( ) + / - : then the result is the
    driver's.  For every other name, the empty one included, it returns
    the bad-request error "invalid database name" and the client has not
    changed.  [DestroyDBContext] hands every name to the driver. *)
Theorem CreateDBContext_checks_the_name (c : Client.t D) (dbName : string) :
  ((exists ch rest,
      dbName = String ch rest /\ lowercase ch /\
      Forall nameChar (String.list_ascii_of_string rest)) ->
   Client.CreateDBContext errors_Status StatusBadRequest c dbName
   = ((Client.driver_CreateDBContext (Client.driverClient_ c) dbName).1,
      Client.mk (Client.AutoFlush c) (Client.dsn c)
        (Client.driver_CreateDBContext (Client.driverClient_ c) dbName).2)) /\
  (~ (exists ch rest,
        dbName = String ch rest /\ lowercase ch /\
        Forall nameChar (String.list_ascii_of_string rest)) ->
   Client.CreateDBContext errors_Status StatusBadRequest c dbName
   = (Some (errors_Status StatusBadRequest "invalid database name"), c)) /\
  Client.DestroyDBContext c dbName
  = ((Client.driver_DestroyDBContext (Client.driverClient_ c) dbName).1,
     Client.mk (Client.AutoFlush c) (Client.dsn c)
       (Client.driver_DestroyDBContext (Client.driverClient_ c) dbName).2).
Proof.
  assert (Client.validDBName dbName = true <->
          exists ch rest, dbName = String ch rest /\ lowercase ch /\
                          Forall nameChar (String.list_ascii_of_string rest)) as Hvalid.
  { destruct dbName as [|ch rest]; simpl.
    - split; [done|]. by intros (? & ? & ? & _).
    - rewrite andb_true_iff, lower_spec, star_spec. split.
      + intros [? ?]. by exists ch, rest.
      + intros (ch' & rest' & Heq & ? & ?). by injection Heq as -> ->. }
  unfold Client.CreateDBContext, Client.DestroyDBContext.
  split; [|split].
  - intros Hname. apply Hvalid in Hname. rewrite Hname. simpl.
    by destruct (Client.driver_CreateDBContext _ _).
  - intros Hname. destruct (Client.validDBName dbName) eqn:E; [|reflexivity].
    exfalso. apply Hname, Hvalid. reflexivity.
  - by destruct (Client.driver_DestroyDBContext _ _).
Qed.

End ClientFacts.

(** ** The request logger *)

Section LoggerFacts.
Variable strings_TrimSpace : string -> string.

Lemma LastIndex_from_absent s sep : forall pos found,
  sep ∉ String.list_ascii_of_string s ->
  serve.LastIndex_from s sep pos found = found.
Proof.
  induction s as [|c s IH]; intros pos found Hno; simpl; [reflexivity|].
  simpl in Hno. apply not_elem_of_cons in Hno as [Hc Hs].
  rewrite bool_decide_eq_false_2 by congruence. by apply IH.
Qed.





(** X14. For a request whose remote address has no colon, the logger
    runs the handler and then panics on the slice of the address: nothing
    is logged. *)
Theorem requestLogger_panics_without_port (s : serve.Service)
    (next : serve.Request -> list serve.call) (r : serve.Request)
    (under : list serve.call) :
  ":"%char ∉ String.list_ascii_of_string (serve.RemoteAddr r) ->
  serve.requestLogger strings_TrimSpace s next r under
  = Panics "slice bounds out of range".
Proof.
  intros Hno. unfold serve.requestLogger, serve.LastIndex.
  by rewrite LastIndex_from_absent.
Qed.

End LoggerFacts.

(** ** The properties above on concrete runs *)

Section MoreExamples.
Import fixture.

Lemma scanAll_refuses_bad_destination_witness :
  exists r2,
    scanAll "" (logged_scan ScanDoc) 0 (rows.newRows five, []) NilPointer
    = Returns (Some (errors_New "nil pointer passed to ScanAllDocs"),
               NilPointer, (r2, [CallErr; CallClose])).
Proof.
  eexists.
  apply (scanAll_refuses_bad_destination "" ScanDoc 0 (rows.newRows five) []
           NilPointer (rows.newRows five) None);
    [right; left; reflexivity | vm_compute; reflexivity
    | vm_compute; reflexivity].
Defined.

Lemma scanAll_on_failed_result_set_witness :
  exists r2,
    scanAll "" (logged_scan ScanDoc) 5 (locallyFailed, []) (SlicePtr ["x"])
    = Returns (Some (errors_New "local"), SlicePtr ["x"],
               (r2, [CallErr; CallClose])).
Proof.
  eexists.
  apply (scanAll_on_failed_result_set "" ScanDoc 5 locallyFailed []
           (SlicePtr ["x"]) (errors_New "local") locallyFailed None);
    vm_compute; reflexivity.
Defined.

Lemma scanAll_slice_appends_every_row_witness :
  exists rF,
    scanAll "" (logged_scan ScanDoc) 6 (rows.newRows five, []) (SlicePtr ["0"])
    = Returns (None, SlicePtr ["0"; "1"; "2"; "3"; "4"; "5"],
               (rF, [CallErr; CallNext; CallScan; CallNext; CallScan;
                     CallNext; CallScan; CallNext; CallScan; CallNext;
                     CallScan; CallNext; CallClose])).
Proof.
  eexists.
  eapply (scanAll_slice_appends_every_row "" ScanDoc ["0"] (rows.newRows five)
            [] (rows.newRows five)
            [(None, "1"); (None, "2"); (None, "3"); (None, "4"); (None, "5")]);
    [vm_compute; reflexivity | vm_compute; reflexivity
    | vm_compute; reflexivity | vm_compute; reflexivity | simpl; lia].
Defined.

Lemma scanAll_array_partly_filled_witness :
  exists rF,
    scanAll "" ScanDoc 3
      (rows.newRows (rowsOf [docRow "a" "1"; docRow "b" "2"]))
      (ArrayPtr ["x"; "y"; "z"])
    = Returns (None, ArrayPtr ["1"; "2"; "z"], rF).
Proof.
  eexists.
  eapply (scanAll_array_partly_filled "" ScanDoc ["x"; "y"; "z"] 2
            (rows.newRows (rowsOf [docRow "a" "1"; docRow "b" "2"]))
            (rows.newRows (rowsOf [docRow "a" "1"; docRow "b" "2"]))
            [(None, "1"); (None, "2")]);
    [simpl; lia | simpl; lia | vm_compute; reflexivity
    | vm_compute; reflexivity | vm_compute; reflexivity
    | vm_compute; reflexivity | lia].
Defined.

Lemma scanAll_keeps_destination_shape_witness :
  exists e dest' r',
    scanAll "" ScanDoc 4 (rows.newRows five) (ArrayPtr [""; ""; ""])
    = Returns (e, dest', r') /\
    exists a', dest' = ArrayPtr a' /\ length a' = 3.
Proof.
  eexists _, _, _. split; [vm_compute; reflexivity|].
  eapply (scanAll_keeps_destination_shape "" ScanDoc 4 (rows.newRows five)
            (ArrayPtr [""; ""; ""])).
  vm_compute; reflexivity.
Defined.

Lemma scanAll_call_protocol_witness :
  exists e dest' r' log',
    scanAll "" (logged_scan ScanDoc) 4 (rows.newRows five, [])
      (ArrayPtr [""; ""])
    = Returns (e, dest', (r', log')) /\
    (log' = [] ++ [CallErr; CallClose] \/
     exists n,
       log' = [] ++ [CallErr] ++ mjoin (replicate n [CallNext; CallScan])
                 ++ [CallNext; CallClose] /\
       forall a, ArrayPtr [""; ""] = ArrayPtr a -> n <= length a).
Proof.
  eexists _, _, _, _. split; [vm_compute; reflexivity|].
  eapply (scanAll_call_protocol "" ScanDoc 4 (rows.newRows five) []
            (ArrayPtr [""; ""])).
  vm_compute; reflexivity.
Defined.

Lemma ScanValue_consumes_the_value_witness :
  exists r',
    rows.ScanValue raw_Decode onBareRow "" = Returns (None, "2", r') /\
    seen (rows.ScanValue raw_Decode r' "") = Some (Some io_EOF, "") /\
    seen (rows.ScanDoc raw_Decode r' "")
    = seen (rows.ScanDoc raw_Decode onBareRow "") /\
    seen (rows.ScanKey raw_Unmarshal r' "")
    = seen (rows.ScanKey raw_Unmarshal onBareRow "").
Proof.
  eapply (ScanValue_consumes_the_value raw_Decode raw_Unmarshal onBareRow
            "" "" _ _ "2" None "2" "");
    [reflexivity | vm_compute; reflexivity | reflexivity | reflexivity
    | reflexivity].
Defined.

Lemma ScanKey_can_be_repeated_witness :
  exists r',
    rows.ScanKey raw_Unmarshal onBareRow "" = Returns (None, "1", r') /\
    rows.ScanKey raw_Unmarshal r' "" = Returns (None, "1", r').
Proof.
  eexists. split; [vm_compute; reflexivity|].
  apply (ScanKey_can_be_repeated raw_Unmarshal onBareRow "" None "1").
  vm_compute; reflexivity.
Defined.

Lemma NextResultSet_failure_is_sticky_witness :
  exists r',
    rows.NextResultSet onBareRow = Returns (false, r') /\
    rows.NextResultSet r' = Returns (false, r') /\
    rows.Metadata r' = Returns (None, Some rows.notReady, r') /\
    rows.Err r'
    = Returns (Some (errors_New "must call NextResultSet before Next"), r').
Proof.
  apply (NextResultSet_failure_is_sticky onBareRow
           (mkIter (rowsIterator.mk (rowsOf []) None) stateRowReady
                   {| driver.ID := "a"; driver.Key := "1";
                      driver.Value := Some "2"; driver.Doc := None;
                      driver.Error := None |}
                   None 0));
    reflexivity.
Defined.

Lemma TestFeed_counts_up_to_max_witness :
  fetches 11 tenItems 0
  = ([(None, 0); (None, 1); (None, 2); (None, 3); (None, 4); (None, 5);
      (None, 6); (None, 7); (None, 8); (None, 9); (Some io_EOF, 10)]%Z,
     TestFeed.mk 10 11 None).
Proof.
  apply (TestFeed_counts_up_to_max 10 10 0 None 0);
    [lia | vm_compute; reflexivity | reflexivity].
Defined.

Lemma CreateDBContext_checks_the_name_witness :
  Client.CreateDBContext sample.statusError 400 sample.client "my_db/1"
  = (None, Client.mk false "memory://" ["accounts"; "my_db/1"]) /\
  Client.CreateDBContext sample.statusError 400 sample.client "My_db"
  = (Some (kivik_Error 400 "invalid database name" None), sample.client).
Proof.
  split.
  - rewrite (proj1 (CreateDBContext_checks_the_name sample.statusError 400
                      sample.client "my_db/1")); [vm_compute; reflexivity|].
    exists "m"%char, "y_db/1". split; [reflexivity|]. split.
    + unfold lowercase. vm_compute. lia.
    + apply star_spec. reflexivity.
  - apply (proj1 (proj2 (CreateDBContext_checks_the_name sample.statusError
                           400 sample.client "My_db"))).
    intros (ch & rest & Heq & Hlow & _). injection Heq as <- <-.
    unfold lowercase in Hlow. vm_compute in Hlow. lia.
Defined.


Lemma requestLogger_panics_without_port_witness :
  serve.requestLogger sample.trimSpace sample.service sample.notFound
    sample.overUnixSocket []
  = Panics "slice bounds out of range".
Proof.
  apply (requestLogger_panics_without_port sample.trimSpace sample.service
           sample.notFound sample.overUnixSocket []).
  apply (bool_decide_unpack _); vm_compute; exact I.
Defined.

End MoreExamples.
